(** * The maintenance scripts, embedded and verified

    [resolve_conflict.py] reads a file into its list of lines, walks the
    lines once with a three-valued [mode] variable and writes the lines it
    keeps to a second file.  The development embeds

    - the [str] primitives the scan relies on ([strip], [startswith]),
    - the loop body and the loop, as a left fold over an explicit scan state,
    - the whole script as a transformer of a file store,

    and states the properties of the documented [resolve] contract against
    that embedding.  It then embeds the three other scripts,
    [fix_formatting.py] (on byte strings and a file store),
    [check_readmes.py] and [check_links.py] (on what they ask of the file
    system), and proves what each of them does. *)

From Stdlib Require Import NArith List Ascii String Lia Strings.Byte.
From stdpp Require Import gmap strings list.

(** ** Python [str] primitives *)

Module Py.

(** A Python [str] is a sequence of Unicode code points. *)
Definition str := list N.

(** Literals: the code points of an ASCII string. *)
Definition lit (s : string) : str := N_of_ascii <$> list_ascii_of_string s.

(** [Py_UNICODE_ISSPACE]: the code points [str.strip()] removes when it is
    called without an argument. *)
Definition is_space (c : N) : bool :=
  (((9 <=? c) && (c <=? 13)) || ((28 <=? c) && (c <=? 32))
   || (c =? 133) || (c =? 160) || (c =? 5760)
   || ((8192 <=? c) && (c <=? 8202))
   || (c =? 8232) || (c =? 8233) || (c =? 8239) || (c =? 8287)
   || (c =? 12288))%N.

Fixpoint lstrip (s : str) : str :=
  match s with
  | c :: s' => if is_space c then lstrip s' else s
  | [] => []
  end.

Definition rstrip (s : str) : str := rev (lstrip (rev s)).

Definition strip (s : str) : str := rstrip (lstrip s).

(** [s.startswith(prefix)] *)
Fixpoint startswith (s prefix : str) : bool :=
  match prefix, s with
  | [], _ => true
  | p :: prefix', c :: s' => (c =? p)%N && startswith s' prefix'
  | _ :: _, [] => false
  end.

End Py.

Import Py.

(** ** The file store the scripts read and write *)

Module FileStore.

(** Paths name files, and several paths can name one file (symbolic or
    hard links). A store records, for a path that is a link, the path of
    the file it stands for; the content of the files, under the path that
    stands for them; and which paths can be opened for writing
    ([open(path, 'w')] raises for the others: a read-only file, a directory
    that is missing). *)
Record Store (A : Type) : Type :=
  { link_target : gmap string string;
    file_content : gmap string A;
    can_write : string -> bool }.

Arguments link_target {A} _.
Arguments file_content {A} _.
Arguments can_write {A} _ _.

(** The file [path] names: itself unless it is a link. *)
Definition real_path {A : Type} (fs : Store A) (path : string) : string :=
  default path (link_target fs !! path).

(** [open(path, 'r')] and reading the whole file; [None] when the open
    raises because the path names no file. *)
Definition read {A : Type} (fs : Store A) (path : string) : option A :=
  file_content fs !! real_path fs path.

(** [open(path, 'w')] and writing [new]: the file the path names gets the
    new content (it is created when missing), so every path that names that
    file reads the new content afterwards; [None] when the open raises,
    which leaves the store as it is. Once the file is open, the write is
    taken to complete. *)
Definition write {A : Type} (fs : Store A) (path : string) (new : A)
    : option (Store A) :=
  if can_write fs path
  then Some {| link_target := link_target fs;
               file_content := <[real_path fs path := new]> (file_content fs);
               can_write := can_write fs |}
  else None.

(** [fs !! path] is what reading [path] gives. *)
#[global] Instance store_lookup {A : Type} : Lookup string A (Store A) :=
  fun path fs => read fs path.

(** A store without links in which every path can be written. *)
Definition plain {A : Type} (files : gmap string A) : Store A :=
  {| link_target := ∅; file_content := files; can_write := fun _ => true |}.

End FileStore.

Import FileStore.

(** ** The scan of [resolve_conflict] *)

Module ResolveConflict.

(** The values the variable [mode] takes: ["normal"], ["head"], ["skip"]. *)
Inductive Mode : Set := normal | head | skip.

#[global] Instance Mode_eq_dec : EqDecision Mode.
Proof. solve_decision. Defined.

(** The three string constants the lines are tested against. *)
Definition HEAD_MARKER : str := lit "<<<<<<< HEAD".
Definition SEPARATOR_MARKER : str := lit "=======".
Definition END_MARKER : str := lit ">>>>>>>".

(** The three tests of the [if]/[elif] chain. *)
Definition is_head_marker (line : str) : bool :=
  startswith (strip line) HEAD_MARKER.
Definition is_separator (line : str) : bool :=
  startswith (strip line) SEPARATOR_MARKER.
Definition is_end_marker (line : str) : bool :=
  startswith (strip line) END_MARKER.

(** The state the loop threads: the variable [mode] and what has been passed
    to [f.write] so far, in order. *)
Record Scan : Set := { mode : Mode; written : list str }.

(** One iteration of [for line in lines]. Each of the three marker branches
    ends in [continue]; a line that reaches the final [if] is written when
    the mode is ["normal"] or ["head"]. *)
Definition body (st : Scan) (line : str) : Scan :=
  if is_head_marker line then {| mode := head; written := written st |}
  else if is_separator line then {| mode := skip; written := written st |}
  else if is_end_marker line then {| mode := normal; written := written st |}
  else match mode st with
       | normal | head => {| mode := mode st; written := written st ++ [line] |}
       | skip => st
       end.

(** The loop, started with [mode = "normal"] on the freshly opened file. *)
Definition scan_from (st : Scan) (lines : list str) : Scan :=
  fold_left body lines st.

Definition initial : Scan := {| mode := normal; written := [] |}.

Definition scan (lines : list str) : Scan := scan_from initial lines.

(** The script on a file store. A file holds the list of lines
    [readlines()] yields for it; the file written is the sequence of strings
    given to [f.write]. The input is read first; then the output is opened
    for writing, and the result is [None] when either open raises. *)
Definition resolve_conflict (fs : Store (list str))
    (input_path output_path : string) : option (Store (list str)) :=
  match read fs input_path with
  | None => None
  | Some lines => write fs output_path (written (scan lines))
  end.

(** *** The loop as a transition system

    A configuration is the list of lines still to be read together with the
    state of the loop. Each branch of the loop body is one rule; an [elif]
    or the final [if] is reached only when the tests before it failed. *)
Definition Config : Type := list str * Scan.

Inductive step : Config -> Config -> Prop :=
  | step_head (line : str) (rest : list str) (st : Scan) :
      is_head_marker line = true ->
      step (line :: rest, st) (rest, {| mode := head; written := written st |})
  | step_separator (line : str) (rest : list str) (st : Scan) :
      is_head_marker line = false ->
      is_separator line = true ->
      step (line :: rest, st) (rest, {| mode := skip; written := written st |})
  | step_end (line : str) (rest : list str) (st : Scan) :
      is_head_marker line = false ->
      is_separator line = false ->
      is_end_marker line = true ->
      step (line :: rest, st)
        (rest, {| mode := normal; written := written st |})
  | step_write (line : str) (rest : list str) (st : Scan) :
      is_head_marker line = false ->
      is_separator line = false ->
      is_end_marker line = false ->
      mode st = normal \/ mode st = head ->
      step (line :: rest, st)
        (rest, {| mode := mode st; written := written st ++ [line] |})
  | step_drop (line : str) (rest : list str) (st : Scan) :
      is_head_marker line = false ->
      is_separator line = false ->
      is_end_marker line = false ->
      ~ (mode st = normal \/ mode st = head) ->
      step (line :: rest, st) (rest, st).

(** A run of the loop: steps until no line is left. *)
Inductive runs : Config -> Scan -> Prop :=
  | runs_done (st : Scan) : runs ([], st) st
  | runs_step (c c' : Config) (final : Scan) :
      step c c' -> runs c' final -> runs c final.

(** An invocation of the script and its outcome: it raises when the input
    cannot be read or the output cannot be opened for writing; otherwise
    the loop runs from [mode = "normal"] and what it wrote is the output. *)
Inductive invocation (fs : Store (list str)) (input_path output_path : string)
    : option (Store (list str)) -> Prop :=
  | invocation_no_input :
      read fs input_path = None ->
      invocation fs input_path output_path None
  | invocation_no_output (lines : list str) :
      read fs input_path = Some lines ->
      can_write fs output_path = false ->
      invocation fs input_path output_path None
  | invocation_done (lines : list str) (final : Scan) (fs' : Store (list str)) :
      read fs input_path = Some lines ->
      runs (lines, initial) final ->
      write fs output_path (written final) = Some fs' ->
      invocation fs input_path output_path (Some fs').

End ResolveConflict.

Import ResolveConflict.

(** ** The scan as a function of the mode alone

    What an iteration does to [mode] and what it hands to [f.write] depend
    only on the current mode and the line; the two functions below read them
    off [body], and [emit]/[last_mode] iterate them over a list of lines. *)

(** A line one of the three tests accepts. *)
Definition recognized (line : str) : bool :=
  is_head_marker line || is_separator line || is_end_marker line.

Definition next_mode (m : Mode) (line : str) : Mode :=
  if is_head_marker line then head
  else if is_separator line then skip
  else if is_end_marker line then normal
  else m.

Definition emit1 (m : Mode) (line : str) : list str :=
  if recognized line then []
  else match m with
       | normal | head => [line]
       | skip => []
       end.

Fixpoint emit (m : Mode) (lines : list str) : list str :=
  match lines with
  | [] => []
  | line :: rest => emit1 m line ++ emit (next_mode m line) rest
  end.

Fixpoint last_mode (m : Mode) (lines : list str) : Mode :=
  match lines with
  | [] => m
  | line :: rest => last_mode (next_mode m line) rest
  end.

(** ** The documented contract *)

Module Contract.

(** Modelled from the spec: the strategy argument of [resolve]. The script
    has no such argument; it keeps the HEAD side of every block. *)
Inductive ResolutionStrategy : Set :=
  KeepLocal | KeepIncoming | KeepBase | KeepBoth.

(** Modelled from the spec: the diagnostics of [resolve]. The script has no
    diagnostics channel. *)
Inductive Diagnostic : Set :=
  | ResolvedBlock (start_index end_index : nat)
  | MalformedMarker (lineIndex : nat) (reason : string)
  | UnterminatedBlock (startIndex : nat).

(** Modelled from the spec: the sigils of the Marker Classifier that are not
    constants of the script. The separator and end sigils are the script's
    [SEPARATOR_MARKER] and [END_MARKER]. *)
Definition START_SIGIL : str := lit "<<<<<<<".
Definition BASE_SIGIL : str := lit "|||||||".

(** Modelled from the spec: a marker line is one whose stripped form begins
    with one of the four sigils. *)
Definition is_marker_line (line : str) : bool :=
  startswith (strip line) START_SIGIL
  || startswith (strip line) BASE_SIGIL
  || startswith (strip line) SEPARATOR_MARKER
  || startswith (strip line) END_MARKER.

(** [resolve] as the script provides it: the resolved lines are the lines
    the scan writes. The strategy is not consulted, and since the script
    returns nothing, prints nothing and raises nothing during the scan, the
    diagnostics it reports are the empty list. *)
Definition resolve (lines : list str) (strategy : ResolutionStrategy)
    : list str * list Diagnostic :=
  (written (scan lines), []).

(** Modelled from the spec: position [i] lies between a start marker and a
    later end marker of [lines]. A position where this fails is outside every
    ConflictBlock, however blocks are matched up. *)
Definition enclosed (lines : list str) (i : nat) : Prop :=
  exists s e a b, s <= i /\ i <= e
    /\ lines !! s = Some a /\ startswith (strip a) START_SIGIL = true
    /\ lines !! e = Some b /\ is_end_marker b = true.

End Contract.

Import Contract.

(** The input of the single-block example. *)
Definition single_block : list str :=
  [lit "a"; lit "<<<<<<< HEAD"; lit "local1"; lit "=======";
   lit "incoming1"; lit ">>>>>>> branch"; lit "b"].

(** The script's entry point: the call under [if __name__ == "__main__"]. *)
Definition INPUT_PATH : string := "crates/mapmap-ui/src/editors/module_canvas.rs".
Definition OUTPUT_PATH : string := "fixed_canvas.rs".

Definition resolve_conflict_main (fs : Store (list str))
    : option (Store (list str)) :=
  resolve_conflict fs INPUT_PATH OUTPUT_PATH.

(** ** Python [bytes] primitives used by [fix_formatting.py] *)

Module PyBytes.

Definition LF : byte := x0a.
Definition CR : byte := x0d.

#[global] Instance byte_eq_decision : EqDecision byte := byte_eq_dec.

(** ASCII whitespace, the bytes [bytes.rstrip()] removes when it is called
    without an argument: tab, newline, vertical tab, form feed, carriage
    return and space. *)
Definition is_space (b : byte) : bool :=
  match b with
  | x09 | x0a | x0b | x0c | x0d | x20 => true
  | _ => false
  end.

Fixpoint lstrip (s : list byte) : list byte :=
  match s with
  | b :: s' => if is_space b then lstrip s' else s
  | [] => []
  end.

Definition rstrip (s : list byte) : list byte := rev (lstrip (rev s)).

(** [content.replace(b'\r\n', b'\n')]: every carriage return that is
    directly followed by a newline is dropped, left to right. *)
Fixpoint replace_crlf (s : list byte) : list byte :=
  match s with
  | [] => []
  | b :: rest =>
      match rest with
      | b' :: rest' =>
          if Byte.eqb b CR && Byte.eqb b' LF then LF :: replace_crlf rest'
          else b :: replace_crlf rest
      | [] => [b]
      end
  end.

(** [content.split(b'\n')]: the pieces between newlines; always at least
    one piece. *)
Fixpoint split_lf (s : list byte) : list (list byte) :=
  match s with
  | [] => [[]]
  | b :: rest =>
      if Byte.eqb b LF then [] :: split_lf rest
      else match split_lf rest with
           | line :: lines => (b :: line) :: lines
           | [] => [[b]]
           end
  end.

(** [b'\n'.join(lines)] *)
Fixpoint join_lf (lines : list (list byte)) : list byte :=
  match lines with
  | [] => []
  | line :: rest =>
      match rest with
      | [] => line
      | _ :: _ => line ++ LF :: join_lf rest
      end
  end.

End PyBytes.

(** ** Path and [str] helpers on file names *)

Module PyPath.

(** [s.endswith(suffix)] *)
Definition endswith (s suffix : string) : bool :=
  String.prefix (String.rev suffix) (String.rev s).

(** [sub in s] *)
Fixpoint contains (sub s : string) : bool :=
  String.prefix sub s
  || match s with
     | EmptyString => false
     | String _ s' => contains sub s'
     end.

(** [os.path.join(a, b)] of [posixpath]. *)
Definition join (a b : string) : string :=
  if String.prefix "/" b then b
  else if String.eqb a "" || endswith a "/" then String.append a b
  else String.append a (String.append "/" b).

End PyPath.

(** ** [fix_formatting.py] *)

Module FixFormatting.

Import PyBytes.

Definition exts : list string :=
  [".rs"; ".md"; ".toml"; ".yaml"; ".yml"; ".wgsl"; ".json"; ".ps1"; ".sh";
   ".bat"].

(** [file_path.endswith(exts)] with a tuple: some suffix of the tuple fits. *)
Definition has_ext (file_path : string) : bool :=
  existsb (PyPath.endswith file_path) exts.

(** The value of [new_content], computed from [content] as it is after the
    CRLF replacement: split into lines, strip each line on the right, join
    with newlines, strip the whole on the right and add one newline. *)
Definition new_content (content : list byte) : list byte :=
  let lines := split_lf content in
  let fixed_lines := map rstrip lines in
  rstrip (join_lf fixed_lines) ++ [LF].

(** What the script prints. The text of the exception that follows
    ["Error fixing <path>: "] is not modelled. *)
Inductive Printed : Set :=
  | ErrorFixing (file_path : string)
  | FixedFiles (fixed_count : nat).

(** [fix_file] on a store of byte files. Both opens are inside the [try]:
    when the file cannot be read, or differs from its new content and
    cannot be opened for writing, the [except] branch reports it and the
    call returns [False] with the store as it was. The result is the store,
    what was printed and the value returned. *)
Definition fix_file (fs : Store (list byte)) (file_path : string)
    : Store (list byte) * list Printed * bool :=
  if has_ext file_path then
    match read fs file_path with
    | None => (fs, [ErrorFixing file_path], false)
    | Some content =>
        let content := replace_crlf content in
        let new := new_content content in
        if decide (content <> new)
        then match write fs file_path new with
             | Some fs' => (fs', [], true)
             | None => (fs, [ErrorFixing file_path], false)
             end
        else (fs, [], false)
    end
  else (fs, [], false).

Definition skip_words : list string :=
  [".git"; "target"; "vcpkg"; "vcpkg_installed"].

(** [any(skip in root for skip in [...])] *)
Definition skipped (root : string) : bool :=
  existsb (fun skip => PyPath.contains skip root) skip_words.

(** The state of [main]'s loops: the store, what has been printed and
    [fixed_count]. *)
Record Run : Type :=
  { files : Store (list byte); printed : list Printed; fixed_count : nat }.

(** [if fix_file(path): fixed_count += 1] *)
Definition count_fix (st : Run) (path : string) : Run :=
  let '(fs, out, fixed) := fix_file (files st) path in
  {| files := fs;
     printed := printed st ++ out;
     fixed_count := if fixed then fixed_count st + 1 else fixed_count st |}.

(** The body of [for file in files]. *)
Definition visit_file (root : string) (st : Run) (file : string) : Run :=
  count_fix st (PyPath.join root file).

(** The body of [for root, dirs, files in os.walk('.')]. *)
Definition visit_dir (st : Run) (entry : string * list string * list string)
    : Run :=
  let '(root, _, file_names) := entry in
  if skipped root then st else fold_left (visit_file root) file_names st.

(** [main], given the triples [os.walk('.')] yields; links to files are
    listed among the files. The walk only lists names, and [fix_file]
    neither creates nor removes files, so the triples do not depend on the
    fixes made on the way. *)
Definition main (walk : list (string * list string * list string))
    (fs : Store (list byte)) : Run :=
  let st := fold_left visit_dir walk
              {| files := fs; printed := []; fixed_count := 0 |} in
  {| files := files st;
     printed := printed st ++ [FixedFiles (fixed_count st)];
     fixed_count := fixed_count st |}.

(** The paths [main] hands to [fix_file], in the order of its two loops. *)
Definition visited (walk : list (string * list string * list string))
    : list string :=
  flat_map (fun entry : string * list string * list string =>
              let '(root, _, file_names) := entry in
              if skipped root then [] else map (PyPath.join root) file_names)
    walk.

(** The same bytes with Windows line ends: every newline preceded by a
    carriage return. Used to state what happens to such files. *)
Fixpoint to_crlf (s : list byte) : list byte :=
  match s with
  | [] => []
  | b :: rest =>
      if Byte.eqb b LF then CR :: LF :: to_crlf rest else b :: to_crlf rest
  end.

(** A text in final form: no line ends with whitespace, and the text is a
    body that does not end with whitespace followed by one newline. *)
Definition formatted (s : list byte) : Prop :=
  Forall (fun l => rstrip l = l) (split_lf s)
  /\ exists body, s = body ++ [LF] /\ rstrip body = body.

End FixFormatting.

(** ** [check_links.py] *)

Module CheckLinks.

(** Texts and paths are strings of bytes here: the UTF-8 form of the text
    Python decodes. The pattern, the two prefixes and the path separator
    are ASCII, and an ASCII byte is never part of a longer UTF-8 sequence,
    so matching on bytes finds the same links. *)

Definition newline : ascii := "010"%char.

(** The tail of the pattern, [(.*?)\)], tried on [s]: the shortest run of
    characters other than a newline that is followed by [")"]. The result
    is the group and what follows the match. *)
Fixpoint group_until_rparen (s : string) : option (string * string) :=
  match s with
  | EmptyString => None
  | String c rest =>
      if Ascii.eqb c ")" then Some (EmptyString, rest)
      else if Ascii.eqb c newline then None
      else match group_until_rparen rest with
           | Some (link, after) => Some (String c link, after)
           | None => None
           end
  end.

(** The pattern after its opening bracket, [.*?\]\((.*?)\)], tried on [s]:
    the lazy [.*?] takes as few characters as it can, none of them a
    newline, and is extended by one whenever the rest fails to match. *)
Fixpoint after_bracket (s : string) : option (string * string) :=
  match s with
  | EmptyString => None
  | String c rest =>
      let extended :=
        if Ascii.eqb c newline then None else after_bracket rest in
      if Ascii.eqb c "]" then
        match rest with
        | String c' rest' =>
            if Ascii.eqb c' "(" then
              match group_until_rparen rest' with
              | Some found => Some found
              | None => extended
              end
            else extended
        | EmptyString => extended
        end
      else extended
  end.

(** [re.findall] for this pattern: at each position from the left, a match
    yields its group and the scan goes on after the match; otherwise the
    scan moves one character on. Every step shortens the text, so
    [String.length s] steps are enough. *)
Fixpoint findall_from (fuel : nat) (s : string) : list string :=
  match fuel with
  | 0 => []
  | S fuel' =>
      match s with
      | EmptyString => []
      | String c rest =>
          if Ascii.eqb c "[" then
            match after_bracket rest with
            | Some (link, after) => link :: findall_from fuel' after
            | None => findall_from fuel' rest
            end
          else findall_from fuel' rest
      end
  end.

Definition findall (s : string) : list string :=
  findall_from (String.length s) s.

Fixpoint drop_while (f : ascii -> bool) (l : list ascii) : list ascii :=
  match l with
  | c :: l' => if f c then drop_while f l' else l
  | [] => []
  end.

(** [os.path.dirname] of [posixpath]: everything up to the last slash,
    without trailing slashes unless it consists of slashes only. *)
Definition dirname (p : string) : string :=
  let head :=
    rev (drop_while (fun c => negb (Ascii.eqb c "/"))
           (rev (list_ascii_of_string p))) in
  let head' :=
    if forallb (fun c => Ascii.eqb c "/") head then head
    else rev (drop_while (fun c => Ascii.eqb c "/") (rev head)) in
  string_of_list_ascii head'.

(** What the script asks of the file system: the text of a file ([None]
    when it cannot be opened) and [os.path.exists]. *)
Record Files : Type :=
  { read : string -> option string;
    exists_path : string -> bool }.

(** The body of [for link in links]: the line printed for [link], if any. *)
Definition check_link (fs : Files) (base_dir link : string) : list string :=
  if String.prefix "http" link then []
  else if String.prefix "#" link then []
  else
    let target := PyPath.join base_dir link in
    if negb (exists_path fs target)
    then [String.append "  BROKEN: "
            (String.append link (String.append " -> " target))]
    else [String.append "  OK: " link].

(** [check_file]: the lines printed, and whether the call returned ([true])
    or raised because the file could not be opened ([false]). *)
Definition check_file (fs : Files) (filepath : string) : list string * bool :=
  let checking := String.append "Checking " (String.append filepath "...") in
  match read fs filepath with
  | None => ([checking], false)
  | Some content =>
      let links := findall content in
      let base_dir := dirname filepath in
      (fold_left (fun out link => out ++ check_link fs base_dir link)
         links [checking],
       true)
  end.

End CheckLinks.

(** ** [check_readmes.py] *)

Module CheckReadmes.

(** What the script asks of the file system: [os.listdir] (which raises
    for a directory that cannot be listed), [os.path.isdir] and
    [os.path.exists]. *)
Record Tree : Type :=
  { listdir : string -> option (list string);
    isdir : string -> bool;
    exists_path : string -> bool }.

Definition crates_dir : string := "crates".

(** The list comprehension that builds [crates]. *)
Definition crates (t : Tree) (names : list string) : list string :=
  List.filter
    (fun d => isdir t (PyPath.join crates_dir d) && negb (String.eqb d "vendor"))
    names.

(** [os.path.join(crates_dir, crate, "README.md")] *)
Definition readme_path (crate : string) : string :=
  PyPath.join (PyPath.join crates_dir crate) "README.md".

(** The loop that fills [missing_readmes]. *)
Definition missing_readmes (t : Tree) (crate_names : list string)
    : list string :=
  fold_left
    (fun missing crate =>
       if negb (exists_path t (readme_path crate)) then missing ++ [crate]
       else missing)
    crate_names [].

(** The lines the final [if]/[else] prints. *)
Definition report (missing : list string) : list string :=
  match missing with
  | [] => ["All crates have README.md"]
  | _ :: _ =>
      "Missing READMEs in crates:"
      :: map (fun crate => String.append "- " crate) missing
  end.

(** The script: the lines it prints, or [None] when [os.listdir] raises. *)
Definition script (t : Tree) : option (list string) :=
  match listdir t crates_dir with
  | None => None
  | Some names => Some (report (missing_readmes t (crates t names)))
  end.

End CheckReadmes.

(** * Properties *)

(** ** [str] primitives *)

Lemma startswith_app (s p q : str) :
  startswith s (p ++ q) = true -> startswith s p = true.
Proof.
  revert s. induction p as [|c p IH]; intros s H; [destruct s; reflexivity|].
  destruct s as [|d s]; simpl in *; [discriminate|].
  apply andb_true_iff in H as [Hc Hs].
  rewrite Hc. simpl. now apply IH.
Qed.

Lemma head_marker_has_sigil (line : str) :
  is_head_marker line = true -> startswith (strip line) START_SIGIL = true.
Proof.
  unfold is_head_marker. intros H.
  apply (startswith_app _ START_SIGIL (lit " HEAD")). exact H.
Qed.

(** The three tests exclude one another: they disagree on the first code
    point. *)
Lemma startswith_first (s p : str) (c d : N) :
  startswith s (c :: p) = true -> startswith s (d :: p) = true -> c = d.
Proof.
  destruct s as [|x s]; simpl; [discriminate|].
  intros H1 H2.
  apply andb_true_iff in H1 as [H1 _]. apply andb_true_iff in H2 as [H2 _].
  apply N.eqb_eq in H1, H2. congruence.
Qed.

Lemma startswith_head (s p : str) (c : N) :
  startswith s (c :: p) = true -> exists s', s = c :: s'.
Proof.
  destruct s as [|x s]; simpl; [discriminate|].
  intros H. apply andb_true_iff in H as [H _]. apply N.eqb_eq in H.
  subst. eauto.
Qed.

Lemma separator_not_head (line : str) :
  is_separator line = true -> is_head_marker line = false.
Proof.
  unfold is_separator, is_head_marker. intros H.
  apply startswith_head in H as [s' ->]. reflexivity.
Qed.

Lemma sigil_not_separator (line : str) :
  startswith (strip line) START_SIGIL = true -> is_separator line = false.
Proof.
  unfold is_separator. intros H.
  apply startswith_head in H as [s' ->]. reflexivity.
Qed.

Lemma sigil_not_end (line : str) :
  startswith (strip line) START_SIGIL = true -> is_end_marker line = false.
Proof.
  unfold is_end_marker. intros H.
  apply startswith_head in H as [s' ->]. reflexivity.
Qed.

Lemma not_marker_not_recognized (line : str) :
  is_marker_line line = false -> recognized line = false.
Proof.
  unfold is_marker_line, recognized, is_separator, is_end_marker.
  intros H.
  apply orb_false_iff in H as [H He].
  apply orb_false_iff in H as [H Hs].
  apply orb_false_iff in H as [H _].
  rewrite Hs, He.
  destruct (is_head_marker line) eqn:Hh; [|reflexivity].
  apply head_marker_has_sigil in Hh. congruence.
Qed.

(** ** The loop and its functional reading *)

Lemma body_spec (st : Scan) (line : str) :
  body st line
  = {| mode := next_mode (mode st) line;
       written := written st ++ emit1 (mode st) line |}.
Proof.
  unfold body, next_mode, emit1, recognized.
  destruct st as [m w]; simpl.
  destruct (is_head_marker line), (is_separator line), (is_end_marker line),
    m; simpl; rewrite ?app_nil_r; reflexivity.
Qed.

Lemma scan_from_spec (lines : list str) (st : Scan) :
  scan_from st lines
  = {| mode := last_mode (mode st) lines;
       written := written st ++ emit (mode st) lines |}.
Proof.
  unfold scan_from. revert st.
  induction lines as [|line rest IH]; intros st; simpl.
  - rewrite app_nil_r. now destruct st.
  - rewrite IH, body_spec. simpl. now rewrite <- app_assoc.
Qed.

Lemma scan_written (lines : list str) : written (scan lines) = emit normal lines.
Proof. unfold scan. now rewrite scan_from_spec. Qed.

Lemma scan_mode (lines : list str) : mode (scan lines) = last_mode normal lines.
Proof. unfold scan. now rewrite scan_from_spec. Qed.

Lemma emit_app (m : Mode) (l1 l2 : list str) :
  emit m (l1 ++ l2) = emit m l1 ++ emit (last_mode m l1) l2.
Proof.
  revert m. induction l1 as [|x l1 IH]; intros m; simpl; [reflexivity|].
  now rewrite IH, app_assoc.
Qed.

Lemma last_mode_app (m : Mode) (l1 l2 : list str) :
  last_mode m (l1 ++ l2) = last_mode (last_mode m l1) l2.
Proof. revert m. induction l1 as [|x l1 IH]; intros m; simpl; auto. Qed.

Lemma scan_from_app (st : Scan) (l1 l2 : list str) :
  scan_from st (l1 ++ l2) = scan_from (scan_from st l1) l2.
Proof. unfold scan_from. apply fold_left_app. Qed.

(** Nothing the scan writes is a line one of its tests accepts. *)
Lemma emit_unrecognized (m : Mode) (lines : list str) :
  Forall (fun l => recognized l = false) (emit m lines).
Proof.
  revert m. induction lines as [|line rest IH]; intros m; simpl; [constructor|].
  apply Forall_app. split; [|apply IH].
  unfold emit1. destruct (recognized line) eqn:E; [constructor|].
  destruct m; repeat constructor; exact E.
Qed.

Lemma emit_sublist (m : Mode) (lines : list str) :
  emit m lines `sublist_of` lines.
Proof.
  revert m. induction lines as [|line rest IH]; intros m; simpl; [constructor|].
  unfold emit1. destruct (recognized line), m; simpl;
    (apply sublist_skip, IH) || (apply sublist_cons, IH).
Qed.

Lemma next_mode_plain (m : Mode) (line : str) :
  recognized line = false -> next_mode m line = m.
Proof.
  unfold recognized, next_mode. intros H.
  apply orb_false_iff in H as [H He]. apply orb_false_iff in H as [Hh Hs].
  now rewrite Hh, Hs, He.
Qed.

(** Outside the skip mode a run of unrecognized lines is written as it is
    and leaves the mode alone. *)
Lemma emit_plain (m : Mode) (lines : list str) :
  m <> skip -> Forall (fun l => recognized l = false) lines ->
  emit m lines = lines /\ last_mode m lines = m.
Proof.
  intros Hm. induction 1 as [|line rest Hl _ [IHe IHm]]; simpl; [easy|].
  rewrite (next_mode_plain _ _ Hl), IHe, IHm. unfold emit1. rewrite Hl.
  now destruct m.
Qed.

(** The skip mode is left only through a head marker or an end marker. *)
Lemma emit_skip_stuck (lines : list str) :
  Forall (fun l => is_head_marker l = false /\ is_end_marker l = false) lines ->
  emit skip lines = [] /\ last_mode skip lines = skip.
Proof.
  induction 1 as [|line rest [Hh He] _ [IHe IHm]]; simpl; [easy|].
  assert (next_mode skip line = skip) as ->.
  { unfold next_mode. rewrite Hh, He. now destruct (is_separator line). }
  rewrite IHe, IHm. unfold emit1. now destruct (recognized line).
Qed.

Lemma separator_recognized (line : str) :
  is_separator line = true -> recognized line = true.
Proof. unfold recognized. intros ->. now rewrite orb_true_r. Qed.

Lemma next_mode_separator (m : Mode) (line : str) :
  is_separator line = true -> next_mode m line = skip.
Proof.
  intros H. unfold next_mode. now rewrite (separator_not_head _ H), H.
Qed.

Lemma next_mode_head (m : Mode) (line : str) :
  is_head_marker line = true -> next_mode m line = head.
Proof. intros H. unfold next_mode. now rewrite H. Qed.

Lemma resolve_emit (lines : list str) (strategy : ResolutionStrategy) :
  resolve lines strategy = (emit normal lines, []).
Proof. unfold resolve. now rewrite scan_written. Qed.

(** ** The documented properties *)

(** C1 (as amended). Resolving the single-block example keeps the local
    side: the output is exactly ["a"; "local1"; "b"]. The script reports no
    diagnostics, so the diagnostics list is empty. *)
Theorem single_block_keep_local :
  resolve single_block KeepLocal = ([lit "a"; lit "local1"; lit "b"], []).
Proof. reflexivity. Qed.

(** C1 (as stated) does not hold: the result is not the pair of the expected
    output and the diagnostics list [[ResolvedBlock 1 5]]. *)
Lemma single_block_no_resolved_block :
  resolve single_block KeepLocal
  <> ([lit "a"; lit "local1"; lit "b"], [ResolvedBlock 1 5]).
Proof. unfold resolve. intros H. apply (f_equal snd) in H. discriminate H. Qed.

(** C2. Pass-through: when no line of the input, once stripped, begins with
    one of the four sigils, [resolve] returns the input unchanged and an empty
    diagnostics list, whatever the strategy. *)
Theorem resolve_passthrough (lines : list str) (strategy : ResolutionStrategy) :
  Forall (fun l => is_marker_line l = false) lines ->
  resolve lines strategy = (lines, []).
Proof.
  intros H. rewrite resolve_emit. f_equal.
  apply emit_plain; [discriminate|].
  eapply Forall_impl; [exact H|]. apply not_marker_not_recognized.
Qed.

Lemma resolve_passthrough_witness :
  resolve [lit "fn main() {"; lit "  = x  "; lit "}"] KeepIncoming
  = ([lit "fn main() {"; lit "  = x  "; lit "}"], []).
Proof.
  apply resolve_passthrough. repeat (constructor; try reflexivity).
Defined.

(** C3 (as amended). A line whose stripped form begins with the start sigil
    is classified as a start marker exactly when the sigil is followed by
    the label [" HEAD"]: then the line is consumed and the mode becomes
    ["head"], whatever the state and whatever follows the label. With any
    other label the line is an ordinary line: the mode is left as it is and
    the line is written unless the mode is ["skip"]. *)
Theorem head_marker_classification (line : str) (st : Scan) :
  startswith (strip line) START_SIGIL = true ->
  (is_head_marker line = true ->
     body st line = {| mode := head; written := written st |})
  /\ (is_head_marker line = false ->
        body st line
        = {| mode := mode st;
             written := written st
                        ++ (if decide (mode st = skip) then [] else [line]) |}).
Proof.
  intros Hsig. split; intros Hh; unfold body; rewrite Hh; [reflexivity|].
  rewrite (sigil_not_separator _ Hsig), (sigil_not_end _ Hsig).
  destruct st as [[] w]; simpl; rewrite ?app_nil_r; reflexivity.
Qed.

Lemma head_marker_classification_witness :
  body initial (lit "  <<<<<<< HEAD~2 (ours)  ") = {| mode := head; written := [] |}
  /\ body {| mode := head; written := [lit "a"] |} (lit "<<<<<<< Updated upstream")
     = {| mode := head; written := [lit "a"; lit "<<<<<<< Updated upstream"] |}.
Proof.
  split.
  - apply (head_marker_classification (lit "  <<<<<<< HEAD~2 (ours)  ") initial);
      reflexivity.
  - apply (head_marker_classification (lit "<<<<<<< Updated upstream")
             {| mode := head; written := [lit "a"] |}); reflexivity.
Defined.

(** C3 (as stated) does not hold: the line ["<<<<<<< feature"] begins with
    the start sigil, yet in the initial state it is written to the output and
    the mode stays ["normal"]. *)
Lemma other_label_not_start :
  startswith (strip (lit "<<<<<<< feature")) START_SIGIL = true
  /\ body initial (lit "<<<<<<< feature")
     = {| mode := normal; written := [lit "<<<<<<< feature"] |}
  /\ body initial (lit "<<<<<<< feature")
     <> {| mode := head; written := written initial |}.
Proof. repeat split. intros H. inversion H. Qed.

(** C4 (as amended). A line whose stripped form begins with ["======="] and
    that is met in the ["normal"] mode is treated as a separator: it is
    consumed, the mode becomes ["skip"], the scan goes on from there, and no
    diagnostic is reported. *)
Theorem separator_in_normal_mode (pre post : list str) (line : str)
    (strategy : ResolutionStrategy) :
  mode (scan pre) = normal ->
  is_separator line = true ->
  scan (pre ++ [line]) = {| mode := skip; written := written (scan pre) |}
  /\ resolve (pre ++ line :: post) strategy
     = (written (scan_from {| mode := skip; written := written (scan pre) |} post),
        []).
Proof.
  intros _ Hsep.
  assert (scan (pre ++ [line])
          = {| mode := skip; written := written (scan pre) |}) as E.
  { unfold scan. rewrite scan_from_app. simpl. unfold body.
    now rewrite (separator_not_head _ Hsep), Hsep. }
  split; [exact E|].
  unfold resolve. f_equal.
  change (pre ++ line :: post) with (pre ++ [line] ++ post).
  rewrite app_assoc. unfold scan at 1. rewrite scan_from_app.
  fold (scan (pre ++ [line])). now rewrite E.
Qed.

Lemma separator_in_normal_mode_witness :
  scan ([lit "a"] ++ [lit "======="])
  = {| mode := skip; written := written (scan [lit "a"]) |}
  /\ resolve ([lit "a"] ++ lit "=======" :: [lit "b"]) KeepLocal
     = (written (scan_from {| mode := skip; written := written (scan [lit "a"]) |}
                   [lit "b"]),
        []).
Proof.
  apply (separator_in_normal_mode [lit "a"] [lit "b"] (lit "=======") KeepLocal);
    reflexivity.
Defined.

(** C4 (as stated) does not hold: on [["======="; "x"]] the separator line is
    met in the ["normal"] mode, yet it is not passed through to the output
    and no [MalformedMarker] is reported. *)
Lemma stray_separator_not_passed_through :
  mode (scan []) = normal
  /\ is_separator (lit "=======") = true
  /\ (lit "=======" ∉ (resolve [lit "======="; lit "x"] KeepLocal).1)
  /\ (forall i why,
        MalformedMarker i why ∉ (resolve [lit "======="; lit "x"] KeepLocal).2).
Proof.
  assert (resolve [lit "======="; lit "x"] KeepLocal = ([], [])) as ->
    by reflexivity.
  repeat split; simpl; intros; apply not_elem_of_nil.
Qed.

(** C5 (as amended). When the input ends with an open start marker, that is
    a ["<<<<<<< HEAD"] line followed by no further head or end marker, the
    output is what the lines before the marker yield, followed by the lines
    after the marker up to the first ["======="] line (all of them when there
    is none). The start marker line itself is not written, and no diagnostic
    is reported. *)
Theorem unterminated_block_output (pre loc rest : list str) (start : str)
    (strategy : ResolutionStrategy) :
  is_head_marker start = true ->
  Forall (fun l => recognized l = false) loc ->
  Forall (fun l => is_head_marker l = false /\ is_end_marker l = false) rest ->
  (rest = [] \/ exists sep rest', rest = sep :: rest' /\ is_separator sep = true) ->
  resolve (pre ++ start :: loc ++ rest) strategy = (written (scan pre) ++ loc, [])
  /\ start ∉ (resolve (pre ++ start :: loc ++ rest) strategy).1.
Proof.
  intros Hstart Hloc Hrest Hshape.
  assert (forall m, emit m (start :: loc ++ rest) = loc) as E.
  { intros m. simpl. rewrite (next_mode_head _ _ Hstart).
    unfold emit1, recognized. rewrite Hstart. simpl.
    rewrite emit_app.
    destruct (emit_plain head loc ltac:(discriminate) Hloc) as [-> ->].
    destruct Hshape as [-> | (sep & rest' & -> & Hsep)]; simpl.
    - apply app_nil_r.
    - rewrite (next_mode_separator _ _ Hsep).
      unfold emit1. rewrite (separator_recognized _ Hsep). simpl.
      apply Forall_cons in Hrest as [_ Hrest].
      destruct (emit_skip_stuck _ Hrest) as [-> _]. apply app_nil_r. }
  split.
  - rewrite resolve_emit, emit_app, E, scan_written. reflexivity.
  - rewrite resolve_emit. simpl. intros Hin.
    pose proof (emit_unrecognized normal (pre ++ start :: loc ++ rest)) as Hall.
    rewrite Forall_forall in Hall. apply Hall in Hin.
    unfold recognized in Hin. rewrite Hstart in Hin. discriminate.
Qed.

Lemma unterminated_block_output_witness :
  resolve ([lit "a"] ++ lit "<<<<<<< HEAD" :: [lit "x"] ++ [lit "======="; lit "y"])
    KeepLocal
  = (written (scan [lit "a"]) ++ [lit "x"], [])
  /\ lit "<<<<<<< HEAD"
     ∉ (resolve ([lit "a"] ++ lit "<<<<<<< HEAD" :: [lit "x"]
                 ++ [lit "======="; lit "y"]) KeepLocal).1.
Proof.
  apply (unterminated_block_output [lit "a"] [lit "x"] [lit "======="; lit "y"]
           (lit "<<<<<<< HEAD") KeepLocal).
  - reflexivity.
  - repeat (constructor; try reflexivity).
  - repeat (constructor; try reflexivity).
  - right. exists (lit "======="), [lit "y"]. split; reflexivity.
Defined.

(** C5 (as stated) does not hold: on [["a"; "<<<<<<< HEAD"; "x"]], which
    ends inside an open block, no [UnterminatedBlock] is reported and the
    start marker line is missing from the output. *)
Lemma unterminated_block_not_reported :
  is_head_marker (lit "<<<<<<< HEAD") = true
  /\ (forall i,
        UnterminatedBlock i
        ∉ (resolve [lit "a"; lit "<<<<<<< HEAD"; lit "x"] KeepLocal).2)
  /\ lit "<<<<<<< HEAD"
     ∉ (resolve [lit "a"; lit "<<<<<<< HEAD"; lit "x"] KeepLocal).1.
Proof.
  assert (resolve [lit "a"; lit "<<<<<<< HEAD"; lit "x"] KeepLocal
          = ([lit "a"; lit "x"], [])) as -> by reflexivity.
  split; [reflexivity|]. split; simpl.
  - intros i. apply not_elem_of_nil.
  - intros H. apply elem_of_cons in H as [H|H]; [discriminate|].
    apply elem_of_cons in H as [H|H]; [discriminate|].
    now apply not_elem_of_nil in H.
Qed.

(** C6 (as amended). For every input and every strategy the output is a
    subsequence of the input: lines are only deleted, never reordered or
    invented. A line that none of the three tests accepts and that is
    reached in the ["normal"] mode appears in the output unchanged, between
    what the lines before it and the lines after it yield. *)
Theorem resolve_subsequence (lines : list str) (strategy : ResolutionStrategy) :
  (resolve lines strategy).1 `sublist_of` lines
  /\ forall pre line post,
       lines = pre ++ line :: post ->
       mode (scan pre) = normal ->
       recognized line = false ->
       (resolve lines strategy).1
       = written (scan pre) ++ line :: written (scan post).
Proof.
  rewrite resolve_emit. simpl. split; [apply emit_sublist|].
  intros pre line post -> Hmode Hplain.
  rewrite scan_mode in Hmode.
  rewrite emit_app, Hmode, !scan_written. simpl.
  rewrite (next_mode_plain _ _ Hplain). unfold emit1. now rewrite Hplain.
Qed.

Lemma resolve_subsequence_witness :
  (resolve single_block KeepBoth).1
  = written (scan (take 6 single_block)) ++ lit "b" :: written (scan []).
Proof.
  apply (resolve_subsequence single_block KeepBoth); reflexivity.
Defined.

(** C6 (as stated) does not hold: in [["======="; "x"]] the line ["x"] is
    not a marker line and lies between no start marker and no end marker,
    so it is outside every conflict block; yet it is deleted. *)
Lemma line_outside_blocks_dropped :
  [lit "======="; lit "x"] !! 1 = Some (lit "x")
  /\ is_marker_line (lit "x") = false
  /\ ~ enclosed [lit "======="; lit "x"] 1
  /\ (lit "x" ∉ (resolve [lit "======="; lit "x"] KeepLocal).1).
Proof.
  split; [reflexivity|]. split; [reflexivity|]. split.
  - intros (s & e & a & b & Hs & _ & Ha & Hsig & _).
    destruct s as [|[|s]]; simpl in Ha; [| |lia];
      injection Ha as <-; vm_compute in Hsig; discriminate.
  - assert (resolve [lit "======="; lit "x"] KeepLocal = ([], [])) as ->
      by reflexivity.
    apply not_elem_of_nil.
Qed.

(** C7. Once a line whose stripped form begins with ["======="] has been
    read, and no later line has a stripped form beginning with
    ["<<<<<<< HEAD"] or [">>>>>>>"], the mode is ["skip"] after every further
    line and nothing after the separator is written: the output is the output
    of the lines before the separator. *)
Theorem separator_drops_rest (pre post : list str) (line : str)
    (strategy : ResolutionStrategy) :
  is_separator line = true ->
  Forall (fun l => is_head_marker l = false /\ is_end_marker l = false) post ->
  resolve (pre ++ line :: post) strategy = (written (scan pre), [])
  /\ forall k, scan (pre ++ line :: take k post)
               = {| mode := skip; written := written (scan pre) |}.
Proof.
  intros Hsep Hpost.
  assert (forall rest,
            Forall (fun l => is_head_marker l = false /\ is_end_marker l = false)
              rest ->
            scan (pre ++ line :: rest)
            = {| mode := skip; written := written (scan pre) |}) as E.
  { intros rest Hrest. unfold scan at 1. rewrite scan_from_spec. simpl.
    rewrite emit_app, last_mode_app. simpl.
    rewrite (next_mode_separator _ _ Hsep).
    destruct (emit_skip_stuck _ Hrest) as [-> ->].
    unfold emit1. rewrite (separator_recognized _ Hsep). simpl.
    now rewrite app_nil_r, scan_written. }
  split.
  - unfold resolve. now rewrite (E post Hpost).
  - intros k. apply E. now apply Forall_take.
Qed.

Lemma separator_drops_rest_witness :
  resolve ([lit "a"] ++ lit "======= " :: [lit "b"; lit "======="; lit "c"])
    KeepLocal
  = (written (scan [lit "a"]), [])
  /\ forall k,
       scan ([lit "a"] ++ lit "======= "
             :: take k [lit "b"; lit "======="; lit "c"])
       = {| mode := skip; written := written (scan [lit "a"]) |}.
Proof.
  apply (separator_drops_rest [lit "a"] [lit "b"; lit "======="; lit "c"]
           (lit "======= ") KeepLocal).
  - reflexivity.
  - repeat (constructor; try reflexivity).
Defined.

(** C8 (as amended). For every input, the output of [resolve] contains no
    line that one of the three tests of the scan accepts, and resolving
    that output again returns it unchanged:
    [resolve (resolve lines) = resolve lines]. *)
Theorem resolve_idempotent (lines : list str)
    (strategy strategy' : ResolutionStrategy) :
  Forall (fun l => recognized l = false) (resolve lines strategy).1
  /\ resolve (resolve lines strategy).1 strategy' = resolve lines strategy.
Proof.
  rewrite !resolve_emit. simpl.
  pose proof (emit_unrecognized normal lines) as H.
  split; [exact H|].
  f_equal. now apply emit_plain.
Qed.

(** C8 (as stated) does not hold for the marker lines of the classifier: a
    start marker with a label other than [HEAD] and a base marker are marker
    lines, and both survive in the output. *)
Lemma output_keeps_other_markers :
  (resolve [lit "<<<<<<< feature"; lit "||||||| base"] KeepLocal).1
  = [lit "<<<<<<< feature"; lit "||||||| base"]
  /\ is_marker_line (lit "<<<<<<< feature") = true
  /\ is_marker_line (lit "||||||| base") = true
  /\ ~ Forall (fun l => is_marker_line l = false)
         (resolve [lit "<<<<<<< feature"; lit "||||||| base"] KeepLocal).1.
Proof.
  repeat split. intros H. apply Forall_cons in H as [H _]. discriminate H.
Qed.

(** ** The file store *)

Lemma write_Some {A : Type} (fs fs' : Store A) (path : string) (new : A) :
  write fs path new = Some fs'
  <-> can_write fs path = true
      /\ fs' = {| link_target := link_target fs;
                  file_content :=
                    <[real_path fs path := new]> (file_content fs);
                  can_write := can_write fs |}.
Proof.
  unfold write. destruct (can_write fs path); split.
  - intros [= <-]. now split.
  - now intros [_ ->].
  - discriminate.
  - intros [H _]. discriminate H.
Qed.

Lemma write_None {A : Type} (fs : Store A) (path : string) (new : A) :
  write fs path new = None <-> can_write fs path = false.
Proof. unfold write. destruct (can_write fs path); split; congruence. Qed.

Lemma write_real_path {A : Type} (fs fs' : Store A) (path : string) (new : A) :
  write fs path new = Some fs' ->
  forall p, real_path fs' p = real_path fs p.
Proof. intros H p. apply write_Some in H as [_ ->]. reflexivity. Qed.

Lemma read_write_same {A : Type} (fs fs' : Store A) (path : string) (new : A) :
  write fs path new = Some fs' -> read fs' path = Some new.
Proof.
  intros H. apply write_Some in H as [_ ->].
  unfold read, real_path. simpl. apply lookup_insert_eq.
Qed.

Lemma read_write_other {A : Type} (fs fs' : Store A) (path p : string)
    (new : A) :
  write fs path new = Some fs' ->
  real_path fs p <> real_path fs path ->
  read fs' p = read fs p.
Proof.
  intros H Hp. apply write_Some in H as [_ ->].
  unfold read, real_path in *. simpl. now apply lookup_insert_ne.
Qed.

Lemma read_write_alias {A : Type} (fs fs' : Store A) (path p : string)
    (new : A) :
  write fs path new = Some fs' ->
  real_path fs p = real_path fs path ->
  read fs' p = Some new.
Proof.
  intros H Hp. apply write_Some in H as [_ ->].
  unfold read, real_path in *. simpl. rewrite Hp. apply lookup_insert_eq.
Qed.

(** ** The loop as a transition system *)



(** The step a configuration takes is the one [body] computes. *)
Lemma step_body (line : str) (rest : list str) (st : Scan) :
  step (line :: rest, st) (rest, body st line).
Proof.
  unfold body.
  destruct (is_head_marker line) eqn:Hh; [now apply step_head|].
  destruct (is_separator line) eqn:Hs; [now apply step_separator|].
  destruct (is_end_marker line) eqn:He; [now apply step_end|].
  destruct st as [[] w]; simpl.
  - apply (step_write line rest {| mode := normal; written := w |}); auto.
  - apply (step_write line rest {| mode := head; written := w |}); auto.
  - apply (step_drop line rest {| mode := skip; written := w |}); auto.
    simpl. intros [H|H]; discriminate H.
Qed.

(** Every run ends, and it ends in the state the fold computes. *)
Lemma runs_scan (lines : list str) (st : Scan) :
  runs (lines, st) (scan_from st lines).
Proof.
  revert st. induction lines as [|line rest IH]; intros st; [constructor|].
  eapply runs_step; [apply step_body|apply IH].
Qed.


Lemma invocation_resolve_conflict (fs : Store (list str))
    (input_path output_path : string) :
  invocation fs input_path output_path
    (resolve_conflict fs input_path output_path).
Proof.
  unfold resolve_conflict.
  destruct (read fs input_path) as [lines|] eqn:R;
    [|now apply invocation_no_input].
  destruct (write fs output_path (written (scan lines))) as [fs'|] eqn:W.
  - apply (invocation_done _ _ _ lines (scan lines)); [exact R| |exact W].
    apply runs_scan.
  - apply write_None in W. now apply (invocation_no_output _ _ _ lines).
Qed.



(** C10. Whatever the state of the scan, a line whose stripped form begins
    with ["<<<<<<< HEAD"], ["======="] or [">>>>>>>"] is consumed: the
    iteration that reads it writes nothing, scanning further lines never
    adds it to what is written, and it does not occur in the output of
    [resolve]. *)
Theorem recognized_marker_consumed (st : Scan) (lines : list str)
    (strategy : ResolutionStrategy) (line : str) :
  recognized line = true ->
  written (body st line) = written st
  /\ (line ∈ written (scan_from st lines) -> line ∈ written st)
  /\ line ∉ (resolve lines strategy).1.
Proof.
  intros Hrec.
  assert (forall m ls, line ∉ emit m ls) as Hout.
  { intros m ls Hin.
    pose proof (emit_unrecognized m ls) as Hall.
    rewrite Forall_forall in Hall. apply Hall in Hin. congruence. }
  split; [|split].
  - rewrite body_spec. simpl. unfold emit1. rewrite Hrec. apply app_nil_r.
  - rewrite scan_from_spec. simpl. intros Hin.
    apply elem_of_app in Hin as [Hin|Hin]; [exact Hin|].
    now apply Hout in Hin.
  - rewrite resolve_emit. apply Hout.
Qed.

Lemma recognized_marker_consumed_witness :
  written (body {| mode := head; written := [lit "a"] |} (lit " >>>>>>> b"))
  = [lit "a"]
  /\ (lit " >>>>>>> b"
      ∈ written (scan_from {| mode := head; written := [lit "a"] |}
                   [lit " >>>>>>> b"; lit "c"]) ->
      lit " >>>>>>> b" ∈ [lit "a"])
  /\ (lit " >>>>>>> b" ∉ (resolve [lit " >>>>>>> b"; lit "c"] KeepLocal).1).
Proof.
  apply (recognized_marker_consumed {| mode := head; written := [lit "a"] |}
           [lit " >>>>>>> b"; lit "c"] KeepLocal (lit " >>>>>>> b")).
  reflexivity.
Defined.

(** * Further properties of [resolve_conflict.py] *)

(** ** How [strip] treats surrounding whitespace *)

Lemma lstrip_spaces_app (ws s : str) :
  Forall (fun c => is_space c = true) ws -> lstrip (ws ++ s) = lstrip s.
Proof. induction 1 as [|c ws Hc _ IH]; simpl; [reflexivity|]. now rewrite Hc. Qed.

Lemma lstrip_split (s : str) :
  exists ws, Forall (fun c => is_space c = true) ws /\ s = ws ++ lstrip s.
Proof.
  induction s as [|c s (ws & Hws & E)]; [now exists []|].
  simpl. destruct (is_space c) eqn:Hc.
  - exists (c :: ws). split; [now constructor|]. simpl. now f_equal.
  - now exists [].
Qed.

Lemma lstrip_fixed_app (a b : str) :
  lstrip a = a -> a <> [] -> lstrip (a ++ b) = a ++ b.
Proof.
  destruct a as [|c a]; [easy|]. simpl. intros H _.
  destruct (is_space c); [|reflexivity].
  exfalso. destruct (lstrip_split a) as (ws & _ & E).
  apply (f_equal length) in H, E. rewrite length_app in E. simpl in H. lia.
Qed.

Lemma lstrip_idem (s : str) : lstrip (lstrip s) = lstrip s.
Proof.
  induction s as [|c s IH]; [reflexivity|]. simpl.
  destruct (is_space c) eqn:Hc; [exact IH|]. simpl. now rewrite Hc.
Qed.

Lemma rstrip_spaces_app (s ws : str) :
  Forall (fun c => is_space c = true) ws -> rstrip (s ++ ws) = rstrip s.
Proof.
  intros H. unfold rstrip. rewrite rev_app_distr, lstrip_spaces_app; [easy|].
  now apply Forall_rev.
Qed.

Lemma rstrip_split (s : str) :
  exists ws, Forall (fun c => is_space c = true) ws /\ s = rstrip s ++ ws.
Proof.
  destruct (lstrip_split (rev s)) as (ws & Hws & E).
  exists (rev ws). split; [now apply Forall_rev|].
  unfold rstrip. rewrite <- rev_app_distr, <- E. now rewrite rev_involutive.
Qed.

Lemma rstrip_idem (s : str) : rstrip (rstrip s) = rstrip s.
Proof. unfold rstrip. now rewrite rev_involutive, lstrip_idem. Qed.

Lemma rstrip_fixed_app (a b : str) :
  rstrip a = a -> a <> [] -> rstrip b = b -> rstrip (a ++ b) = a ++ b.
Proof.
  unfold rstrip. intros Ha Hne Hb.
  apply (f_equal (@rev N)) in Ha, Hb. rewrite rev_involutive in Ha, Hb.
  rewrite rev_app_distr.
  destruct b as [|x b].
  - simpl. rewrite Ha. now rewrite rev_involutive, app_nil_r.
  - rewrite lstrip_fixed_app; [now rewrite <- rev_app_distr, rev_involutive|exact Hb|].
    intros E. apply (f_equal length) in E. rewrite length_rev in E. discriminate.
Qed.

Lemma strip_padded (ws1 ws2 s : str) :
  Forall (fun c => is_space c = true) ws1 ->
  Forall (fun c => is_space c = true) ws2 ->
  strip (ws1 ++ s ++ ws2) = strip s.
Proof.
  intros H1 H2. unfold strip. rewrite (lstrip_spaces_app _ _ H1).
  destruct (lstrip_split s) as (ws & Hws & E).
  destruct (lstrip s) as [|c r] eqn:El.
  - rewrite app_nil_r in E. subst s.
    rewrite <- (app_nil_r (ws ++ ws2)), lstrip_spaces_app; [reflexivity|].
    apply Forall_app; now split.
  - assert (lstrip (s ++ ws2) = (c :: r) ++ ws2) as ->.
    { rewrite E at 1. rewrite <- app_assoc, (lstrip_spaces_app _ _ Hws).
      apply lstrip_fixed_app; [|discriminate].
      rewrite <- El. apply lstrip_idem. }
    now apply rstrip_spaces_app.
Qed.

Lemma startswith_prefix (s p : str) :
  startswith s p = true <-> exists t, s = p ++ t.
Proof.
  revert s. induction p as [|c p IH]; intros s; simpl.
  - split; [intros _; now exists s|intros _; now destruct s].
  - destruct s as [|d s]; [split; [discriminate|intros [t E]; discriminate]|].
    simpl. rewrite andb_true_iff, N.eqb_eq, IH. split.
    + intros [-> [t ->]]. now exists t.
    + intros [t E]. injection E as -> ->. eauto.
Qed.

(** A marker constant that neither begins nor ends with whitespace is found
    by [line.strip().startswith(marker)] exactly in the lines made of
    whitespace, the marker and any further text. *)
Lemma marker_test_iff (marker line : str) :
  marker <> [] -> lstrip marker = marker -> rstrip marker = marker ->
  startswith (strip line) marker = true
  <-> exists ws rest,
        Forall (fun c => is_space c = true) ws /\ line = ws ++ marker ++ rest.
Proof.
  intros Hne Hl Hr. rewrite startswith_prefix. split.
  - intros [t E]. unfold strip in E.
    destruct (lstrip_split line) as (ws & Hws & E1).
    destruct (rstrip_split (lstrip line)) as (ws' & _ & E2).
    exists ws, (t ++ ws'). split; [exact Hws|].
    rewrite E1 at 1. f_equal. rewrite E2 at 1. rewrite E. now rewrite app_assoc.
  - intros (ws & rest & Hws & ->).
    unfold strip. rewrite (lstrip_spaces_app _ _ Hws).
    rewrite (lstrip_fixed_app _ _ Hl Hne).
    destruct (rstrip_split rest) as (ws' & Hws' & E).
    exists (rstrip rest). rewrite E at 1.
    rewrite app_assoc, (rstrip_spaces_app _ _ Hws').
    apply rstrip_fixed_app; [exact Hr|exact Hne|apply rstrip_idem].
Qed.

Lemma end_marker_alone (line : str) :
  is_end_marker line = true ->
  is_head_marker line = false /\ is_separator line = false.
Proof.
  unfold is_end_marker, is_head_marker, is_separator. intros H.
  apply startswith_head in H as [s' ->]. now split.
Qed.

(** X1. Each of the three tests accepts exactly the lines that consist of
    any amount of leading whitespace, the marker constant and then any text
    at all: so ["=========="], ["=======x"] and an indented [">>>>>>> b"]
    are marker lines, and a line carrying text before the marker is not. *)
Theorem marker_tests_characterised (line : str) :
  (is_head_marker line = true
   <-> exists ws rest,
         Forall (fun c => is_space c = true) ws
         /\ line = ws ++ HEAD_MARKER ++ rest)
  /\ (is_separator line = true
      <-> exists ws rest,
            Forall (fun c => is_space c = true) ws
            /\ line = ws ++ SEPARATOR_MARKER ++ rest)
  /\ (is_end_marker line = true
      <-> exists ws rest,
            Forall (fun c => is_space c = true) ws
            /\ line = ws ++ END_MARKER ++ rest).
Proof.
  repeat split; apply marker_test_iff; solve [discriminate | reflexivity].
Qed.

(** X2. Whitespace around a line (indentation, the trailing newline that
    [readlines] leaves) does not change what an iteration decides: the mode
    it sets and whether it writes are those of the bare line, and a line
    that is written is written with its whitespace. *)
Theorem body_ignores_padding (ws1 ws2 line : str) (st : Scan) :
  Forall (fun c => is_space c = true) ws1 ->
  Forall (fun c => is_space c = true) ws2 ->
  exists (m : Mode) (keep : bool),
    body st line
    = {| mode := m; written := written st ++ (if keep then [line] else []) |}
    /\ body st (ws1 ++ line ++ ws2)
       = {| mode := m;
            written := written st
                       ++ (if keep then [ws1 ++ line ++ ws2] else []) |}.
Proof.
  intros H1 H2.
  pose proof (strip_padded ws1 ws2 line H1 H2) as E.
  rewrite !body_spec. unfold next_mode, emit1, recognized, is_head_marker,
    is_separator, is_end_marker. rewrite E.
  exists (next_mode (mode st) line).
  unfold next_mode, is_head_marker, is_separator, is_end_marker.
  destruct (startswith (strip line) HEAD_MARKER
            || startswith (strip line) SEPARATOR_MARKER
            || startswith (strip line) END_MARKER);
    [now exists false|].
  destruct (mode st); [now exists true|now exists true|now exists false].
Qed.

Lemma body_ignores_padding_witness :
  exists (m : Mode) (keep : bool),
    body initial (lit "=======")
    = {| mode := m;
         written := written initial ++ (if keep then [lit "======="] else []) |}
    /\ body initial (lit "    " ++ lit "=======" ++ [10%N])
       = {| mode := m;
            written := written initial
                       ++ (if keep
                           then [lit "    " ++ lit "=======" ++ [10%N]]
                           else []) |}.
Proof.
  apply (body_ignores_padding (lit "    ") [10%N] (lit "=======") initial);
    repeat (constructor; try reflexivity).
Defined.

(** X3. A well-formed block is resolved to its HEAD side. When a head
    marker is followed by lines none of the tests accepts, a separator,
    lines up to an end marker (none of them a head or end marker) and the
    end marker, the scan writes what the lines before the block yield, then
    the lines between head marker and separator, then what the lines after
    the block yield when scanned on their own. *)
Theorem well_formed_block_keeps_head_side
    (pre loc incoming post : list str) (h s e : str) :
  is_head_marker h = true ->
  Forall (fun l => recognized l = false) loc ->
  is_separator s = true ->
  Forall (fun l => is_head_marker l = false /\ is_end_marker l = false)
    incoming ->
  is_end_marker e = true ->
  written (scan (pre ++ h :: loc ++ s :: incoming ++ e :: post))
  = written (scan pre) ++ loc ++ written (scan post).
Proof.
  intros Hh Hloc Hs Hinc He.
  destruct (end_marker_alone _ He) as [Heh Hes].
  destruct (emit_plain head loc ltac:(discriminate) Hloc) as [El Ml].
  destruct (emit_skip_stuck _ Hinc) as [Ei Mi].
  assert (forall m, emit1 m h = []) as Eh
    by (intros m; unfold emit1, recognized; now rewrite Hh).
  assert (forall m, emit1 m s = []) as Es
    by (intros m; unfold emit1; now rewrite (separator_recognized _ Hs)).
  assert (forall m, emit1 m e = []) as Ee
    by (intros m; unfold emit1, recognized; rewrite He; now rewrite !orb_true_r).
  assert (forall m, next_mode m e = normal) as Me
    by (intros m; unfold next_mode; now rewrite Heh, Hes, He).
  rewrite !scan_written, emit_app. f_equal. simpl.
  rewrite Eh, (next_mode_head _ _ Hh), emit_app, El, Ml. simpl. f_equal.
  rewrite Es, (next_mode_separator _ _ Hs), emit_app, Ei, Mi. simpl.
  now rewrite Ee, Me.
Qed.

Lemma well_formed_block_keeps_head_side_witness :
  written (scan ([lit "="] ++ lit "<<<<<<< HEAD" :: [lit "x"; lit "y"]
                 ++ lit "=======" :: [lit "z"; lit "=======" ]
                 ++ lit ">>>>>>> theirs" :: [lit "w"]))
  = written (scan [lit "="]) ++ [lit "x"; lit "y"] ++ written (scan [lit "w"]).
Proof.
  apply (well_formed_block_keeps_head_side [lit "="] [lit "x"; lit "y"]
           [lit "z"; lit "======="] [lit "w"]
           (lit "<<<<<<< HEAD") (lit "=======") (lit ">>>>>>> theirs"));
    repeat (constructor; try reflexivity).
Defined.

(** X4. The script fails exactly when the input file cannot be read or
    the output cannot be opened for writing. When it succeeds, the output
    path, and every path that names the same file, holds what the scan of
    the input wrote; every path that names another file reads as before;
    links and write permissions are as before. In particular the
    hard-wired call of the entry point leaves its input file as it was
    unless input and output path name the same file. *)
Theorem resolve_conflict_frame (fs : Store (list str))
    (input_path output_path : string) :
  (resolve_conflict fs input_path output_path = None
   <-> fs !! input_path = None \/ can_write fs output_path = false)
  /\ (forall fs',
        resolve_conflict fs input_path output_path = Some fs' ->
        (exists lines,
           fs !! input_path = Some lines
           /\ fs' !! output_path = Some (written (scan lines)))
        /\ (forall p, real_path fs p <> real_path fs output_path ->
                      fs' !! p = fs !! p)
        /\ (forall p, real_path fs p = real_path fs output_path ->
                      fs' !! p = fs' !! output_path)
        /\ link_target fs' = link_target fs
        /\ can_write fs' = can_write fs)
  /\ (forall fs',
        resolve_conflict_main fs = Some fs' ->
        real_path fs INPUT_PATH <> real_path fs OUTPUT_PATH ->
        fs' !! INPUT_PATH = fs !! INPUT_PATH).
Proof.
  unfold resolve_conflict_main, resolve_conflict, lookup, store_lookup.
  split; [|split].
  - destruct (read fs input_path) as [lines|].
    + rewrite write_None. split; [now right|]. now intros [H|H].
    + split; [now left|reflexivity].
  - intros fs'. destruct (read fs input_path) as [lines|]; [|discriminate].
    intros W. split; [|split; [|split]].
    + exists lines. split; [reflexivity|]. exact (read_write_same _ _ _ _ W).
    + intros p Hp. exact (read_write_other _ _ _ _ _ W Hp).
    + intros p Hp. rewrite (read_write_alias _ _ _ _ _ W Hp).
      symmetry. exact (read_write_same _ _ _ _ W).
    + apply write_Some in W as [_ ->]. now split.
  - intros fs'. destruct (read fs INPUT_PATH) as [lines|] eqn:R; [|discriminate].
    intros W Hp. rewrite <- R. exact (read_write_other _ _ _ _ _ W Hp).
Qed.

(** X5. Running the script again on its own output, in place, changes
    nothing: the file store after the second run is the store after the
    first. *)
Theorem resolve_conflict_again_in_place (fs fs1 : Store (list str))
    (input_path output_path : string) :
  resolve_conflict fs input_path output_path = Some fs1 ->
  resolve_conflict fs1 output_path output_path = Some fs1.
Proof.
  unfold resolve_conflict.
  destruct (read fs input_path) as [lines|]; [|discriminate].
  intros W. rewrite (read_write_same _ _ _ _ W).
  assert (written (scan (written (scan lines))) = written (scan lines)) as ->.
  { rewrite !scan_written. now apply emit_plain, emit_unrecognized. }
  apply write_Some in W as [Hw ->]. apply write_Some. split; [exact Hw|].
  unfold real_path. simpl. now rewrite insert_insert_eq.
Qed.

Lemma resolve_conflict_again_in_place_witness :
  resolve_conflict
    (plain (<["out.rs" := written (scan single_block)]>
              {[ "in.rs" := single_block ]}))
    "out.rs" "out.rs"
  = Some (plain (<["out.rs" := written (scan single_block)]>
                   {[ "in.rs" := single_block ]})).
Proof.
  apply (resolve_conflict_again_in_place (plain {[ "in.rs" := single_block ]}) _
           "in.rs" "out.rs").
  vm_compute. reflexivity.
Defined.

Lemma marker_tests_characterised_witness :
  exists ws rest,
    Forall (fun c => is_space c = true) ws
    /\ lit "  ==========" = ws ++ SEPARATOR_MARKER ++ rest.
Proof.
  apply (proj1 (proj1 (proj2 (marker_tests_characterised (lit "  =========="))))).
  reflexivity.
Defined.

Lemma resolve_conflict_frame_witness :
  plain (<[OUTPUT_PATH := written (scan single_block)]>
           {[ INPUT_PATH := single_block ]}) !! INPUT_PATH
  = plain {[ INPUT_PATH := single_block ]} !! INPUT_PATH.
Proof.
  apply (proj2 (proj2 (resolve_conflict_frame
                         (plain {[ INPUT_PATH := single_block ]})
                         INPUT_PATH OUTPUT_PATH))).
  - vm_compute. reflexivity.
  - vm_compute. discriminate.
Defined.

(** * Properties of [fix_formatting.py] *)

Module FixFormattingFacts.

Import PyBytes FixFormatting.

(** ** [rstrip] on bytes *)

Lemma bytes_lstrip_spaces_app (ws s : list byte) :
  Forall (fun b => is_space b = true) ws -> lstrip (ws ++ s) = lstrip s.
Proof. induction 1 as [|b ws Hb _ IH]; simpl; [reflexivity|]. now rewrite Hb. Qed.

Lemma bytes_lstrip_split (s : list byte) :
  exists ws, Forall (fun b => is_space b = true) ws /\ s = ws ++ lstrip s.
Proof.
  induction s as [|b s (ws & Hws & E)]; [now exists []|].
  simpl. destruct (is_space b) eqn:Hb.
  - exists (b :: ws). split; [now constructor|]. simpl. now f_equal.
  - now exists [].
Qed.

Lemma bytes_lstrip_head (s : list byte) :
  lstrip s = [] \/ exists b r, lstrip s = b :: r /\ is_space b = false.
Proof.
  induction s as [|b s IH]; [now left|]. simpl.
  destruct (is_space b) eqn:Hb; [exact IH|]. right. now exists b, s.
Qed.

Lemma bytes_rstrip_spaces_app (s ws : list byte) :
  Forall (fun b => is_space b = true) ws -> rstrip (s ++ ws) = rstrip s.
Proof.
  intros H. unfold rstrip.
  rewrite rev_app_distr, bytes_lstrip_spaces_app; [easy|]. now apply Forall_rev.
Qed.

Lemma bytes_rstrip_split (s : list byte) :
  exists ws, Forall (fun b => is_space b = true) ws /\ s = rstrip s ++ ws.
Proof.
  destruct (bytes_lstrip_split (rev s)) as (ws & Hws & E).
  exists (rev ws). split; [now apply Forall_rev|].
  unfold rstrip. rewrite <- rev_app_distr, <- E. now rewrite rev_involutive.
Qed.

(** What [rstrip] returns is empty or ends with a byte that is not
    whitespace. *)
Lemma bytes_rstrip_last (s : list byte) :
  rstrip s = [] \/ exists r b, rstrip s = r ++ [b] /\ is_space b = false.
Proof.
  unfold rstrip. destruct (bytes_lstrip_head (rev s)) as [->|(b & r & -> & Hb)].
  - now left.
  - right. exists (rev r), b. now split.
Qed.

Lemma bytes_rstrip_snoc (s : list byte) (b : byte) :
  is_space b = false -> rstrip (s ++ [b]) = s ++ [b].
Proof.
  intros Hb. unfold rstrip. rewrite rev_app_distr. simpl. rewrite Hb.
  change (b :: rev s) with ([b] ++ rev s).
  now rewrite rev_app_distr, rev_involutive.
Qed.

Lemma bytes_rstrip_idem (s : list byte) : rstrip (rstrip s) = rstrip s.
Proof.
  destruct (bytes_rstrip_last s) as [->|(r & b & -> & Hb)]; [reflexivity|].
  now apply bytes_rstrip_snoc.
Qed.

Lemma bytes_rstrip_cons (b : byte) (s : list byte) :
  rstrip (b :: s)
  = match rstrip s with
    | [] => if is_space b then [] else [b]
    | _ :: _ => b :: rstrip s
    end.
Proof.
  destruct (bytes_rstrip_split s) as (ws & Hws & E).
  rewrite E at 1.
  change (b :: rstrip s ++ ws) with ((b :: rstrip s) ++ ws).
  rewrite (bytes_rstrip_spaces_app _ _ Hws).
  destruct (bytes_rstrip_last s) as [->|(r & c & -> & Hc)].
  - unfold rstrip. simpl. now destruct (is_space b).
  - change (b :: r ++ [c]) with ((b :: r) ++ [c]).
    rewrite (bytes_rstrip_snoc _ _ Hc). now destruct r.
Qed.

Lemma bytes_rstrip_nil_spaces (s : list byte) :
  rstrip s = [] <-> Forall (fun b => is_space b = true) s.
Proof.
  split.
  - intros E. destruct (bytes_rstrip_split s) as (ws & Hws & E').
    rewrite E in E'. now subst.
  - intros H. now rewrite <- (app_nil_l s), bytes_rstrip_spaces_app.
Qed.

(** A line is clean when stripping it on the right leaves it as it is. *)
Lemma clean_cons (b : byte) (s : list byte) :
  rstrip (b :: s) = b :: s
  <-> (s = [] /\ is_space b = false) \/ (s <> [] /\ rstrip s = s).
Proof.
  rewrite bytes_rstrip_cons. destruct (rstrip s) as [|c r] eqn:E.
  - destruct s as [|d s].
    + destruct (is_space b); split.
      * discriminate.
      * intros [[_ H]|[H _]]; [discriminate H|now elim H].
      * intros _. now left.
      * reflexivity.
    + split.
      * destruct (is_space b); intros H; discriminate H.
      * intros [[? _]|[_ ?]]; discriminate.
  - split.
    + intros [= <-]. right. split; [|reflexivity]. discriminate.
    + intros [[-> _]|[_ <-]]; [discriminate E|reflexivity].
Qed.

Lemma rstrip_sublist (s : list byte) : rstrip s `sublist_of` s.
Proof.
  destruct (bytes_rstrip_split s) as (ws & _ & E). rewrite E at 2.
  apply sublist_inserts_r. reflexivity.
Qed.

Lemma rstrip_keeps_text (s : list byte) :
  filter (fun b => is_space b = false) (rstrip s)
  = filter (fun b => is_space b = false) s.
Proof.
  destruct (bytes_rstrip_split s) as (ws & Hws & E). rewrite E at 2.
  rewrite filter_app.
  assert (filter (fun b => is_space b = false) ws = []) as ->.
  { clear E. induction Hws as [|b ws Hb _ IH]; [reflexivity|].
    rewrite filter_cons, IH. destruct (decide (is_space b = false)); congruence. }
  now rewrite app_nil_r.
Qed.

(** ** [split] and [join] *)

Lemma split_lf_not_nil (s : list byte) : split_lf s <> [].
Proof.
  destruct s as [|b s]; simpl; [discriminate|].
  destruct (Byte.eqb b LF); [discriminate|].
  destruct (split_lf s); discriminate.
Qed.

Lemma split_lf_cons_other (b : byte) (s : list byte) :
  b <> LF ->
  exists line lines, split_lf s = line :: lines
                     /\ split_lf (b :: s) = (b :: line) :: lines.
Proof.
  intros Hb. simpl.
  destruct (Byte.eqb b LF) eqn:E; [now apply byte_dec_bl in E|].
  destruct (split_lf s) as [|line lines] eqn:Es; [now apply split_lf_not_nil in Es|].
  now exists line, lines.
Qed.

Lemma split_lf_cons_lf (s : list byte) : split_lf (LF :: s) = [] :: split_lf s.
Proof. reflexivity. Qed.

Lemma split_lf_app (a b : list byte) :
  split_lf (a ++ LF :: b) = split_lf a ++ split_lf b.
Proof.
  induction a as [|x a IH]; [reflexivity|].
  destruct (decide (x = LF)) as [->|Hx].
  - simpl app. rewrite !split_lf_cons_lf, IH. reflexivity.
  - destruct (split_lf_cons_other x a Hx) as (l & ls & E1 & ->).
    destruct (split_lf_cons_other x (a ++ LF :: b) Hx) as (l' & ls' & E2 & E3).
    simpl app. rewrite E3. rewrite IH, E1 in E2. injection E2 as <- <-.
    reflexivity.
Qed.

Lemma join_lf_cons (line : list byte) (lines : list (list byte)) :
  lines <> [] -> join_lf (line :: lines) = line ++ LF :: join_lf lines.
Proof. destruct lines; [easy|reflexivity]. Qed.

Lemma join_split (s : list byte) : join_lf (split_lf s) = s.
Proof.
  induction s as [|b s IH]; [reflexivity|].
  destruct (decide (b = LF)) as [->|Hb].
  - rewrite split_lf_cons_lf, join_lf_cons by apply split_lf_not_nil.
    now rewrite IH.
  - destruct (split_lf_cons_other b s Hb) as (l & ls & E & ->).
    rewrite E in IH. destruct ls as [|l2 ls]; simpl in *; now rewrite IH.
Qed.

Lemma split_lf_plain (s : list byte) : LF ∉ s -> split_lf s = [s].
Proof.
  induction s as [|b s IH]; [reflexivity|]. intros H.
  apply not_elem_of_cons in H as [Hb Hs].
  destruct (split_lf_cons_other b s (not_eq_sym Hb)) as (l & ls & E & ->).
  rewrite (IH Hs) in E. now injection E as <- <-.
Qed.

Lemma split_join (lines : list (list byte)) :
  lines <> [] -> Forall (fun l => LF ∉ l) lines ->
  split_lf (join_lf lines) = lines.
Proof.
  intros Hne H. induction H as [|l ls Hl Hls IH]; [easy|].
  destruct ls as [|l2 ls]; [now apply split_lf_plain|].
  rewrite join_lf_cons by discriminate.
  rewrite split_lf_app, (split_lf_plain _ Hl), IH by discriminate. reflexivity.
Qed.

Lemma split_lf_lines_plain (s : list byte) :
  Forall (fun l => LF ∉ l) (split_lf s).
Proof.
  induction s as [|b s IH]; [repeat constructor; apply not_elem_of_nil|].
  destruct (decide (b = LF)) as [->|Hb].
  - rewrite split_lf_cons_lf. constructor; [apply not_elem_of_nil|exact IH].
  - destruct (split_lf_cons_other b s Hb) as (l & ls & E & ->).
    rewrite E in IH. apply Forall_cons in IH as [Hl Hls].
    constructor; [|exact Hls]. apply not_elem_of_cons. split; [congruence|exact Hl].
Qed.

Lemma join_lf_sublist (l1 l2 : list (list byte)) :
  Forall2 sublist l1 l2 -> join_lf l1 `sublist_of` join_lf l2.
Proof.
  induction 1 as [|a b l1 l2 Hab H IH]; [reflexivity|].
  destruct H as [|a' b' l1 l2 Hab' H]; [exact Hab|].
  rewrite !join_lf_cons by discriminate.
  apply sublist_app; [exact Hab|]. now apply sublist_skip.
Qed.

Lemma join_lf_keeps_text (lines : list (list byte)) :
  filter (fun b => is_space b = false) (join_lf (map rstrip lines))
  = filter (fun b => is_space b = false) (join_lf lines).
Proof.
  induction lines as [|l ls IH]; [reflexivity|].
  destruct ls as [|l2 ls]; [apply rstrip_keeps_text|].
  change (map rstrip (l :: l2 :: ls))
    with (rstrip l :: map rstrip (l2 :: ls)).
  rewrite !join_lf_cons by discriminate.
  rewrite !filter_app, !filter_cons, rstrip_keeps_text, IH. reflexivity.
Qed.

(** ** The shape of [new_content] *)

Lemma clean_tail (b : byte) (s : list byte) :
  rstrip (b :: s) = b :: s -> rstrip s = s.
Proof.
  intros H. apply clean_cons in H as [[-> _]|[_ H]]; [reflexivity|exact H].
Qed.

Lemma lines_clean_tail (b : byte) (s : list byte) :
  Forall (fun l => rstrip l = l) (split_lf (b :: s)) ->
  Forall (fun l => rstrip l = l) (split_lf s).
Proof.
  destruct (decide (b = LF)) as [->|Hb].
  - rewrite split_lf_cons_lf. intros H. now apply Forall_cons in H as [_ H].
  - destruct (split_lf_cons_other b s Hb) as (l & ls & -> & ->).
    intros H. apply Forall_cons in H as [Hl Hls].
    constructor; [now apply clean_tail in Hl|exact Hls].
Qed.

Lemma split_lf_first_empty (s : list byte) (lines : list (list byte)) :
  split_lf s = [] :: lines -> s = [] \/ exists s', s = LF :: s'.
Proof.
  destruct s as [|b s]; [now left|]. intros H. right.
  destruct (decide (b = LF)) as [->|Hb]; [now exists s|].
  destruct (split_lf_cons_other b s Hb) as (l & ls & _ & E).
  rewrite E in H. discriminate H.
Qed.

(** Cutting trailing bytes off a text whose lines are all clean, at a point
    where the text is itself clean, leaves a text whose lines are clean. *)
Lemma lines_clean_prefix (body tail : list byte) :
  Forall (fun l => rstrip l = l) (split_lf (body ++ tail)) ->
  rstrip body = body ->
  Forall (fun l => rstrip l = l) (split_lf body).
Proof.
  induction body as [|x body IH]; intros Hall Hclean; [now repeat constructor|].
  destruct (decide (x = LF)) as [->|Hx].
  - simpl app in Hall. rewrite split_lf_cons_lf in *.
    apply Forall_cons in Hall as [_ Hall].
    apply clean_cons in Hclean as [[_ H]|[_ H]]; [discriminate H|].
    constructor; [reflexivity|now apply IH].
  - pose proof (lines_clean_tail _ _ Hall) as Hall'.
    destruct (split_lf_cons_other x (body ++ tail) Hx) as (l & ls & E & E').
    simpl app in Hall. rewrite E' in Hall. apply Forall_cons in Hall as [Hl _].
    destruct (split_lf_cons_other x body Hx) as (l' & ls' & E1 & ->).
    apply clean_cons in Hclean as [[-> Hsp]|[Hne Hclean]].
    + injection E1 as <- <-. constructor; [|constructor].
      apply clean_cons. now left.
    + specialize (IH Hall' Hclean). rewrite E1 in IH.
      apply Forall_cons in IH as [Hl' Hls']. constructor; [|exact Hls'].
      apply clean_cons. destruct l' as [|c l']; [left|right; now split].
      split; [reflexivity|].
      apply split_lf_first_empty in E1 as [->|[s' ->]]; [easy|].
      simpl app in E. rewrite split_lf_cons_lf in E. injection E as <- _.
      apply clean_cons in Hl as [[_ H]|[H _]]; [exact H|easy].
Qed.

(** A text whose lines are all clean holds no carriage return directly
    before a newline. *)
Lemma clean_lines_no_crlf (s : list byte) :
  Forall (fun l => rstrip l = l) (split_lf s) -> replace_crlf s = s.
Proof.
  induction s as [|b s IH]; [reflexivity|]. intros H.
  specialize (IH (lines_clean_tail _ _ H)).
  destruct s as [|b' s]; [reflexivity|].
  change (replace_crlf (b :: b' :: s))
    with (if Byte.eqb b CR && Byte.eqb b' LF then LF :: replace_crlf s
          else b :: replace_crlf (b' :: s)).
  destruct (Byte.eqb b CR && Byte.eqb b' LF) eqn:E; [|now rewrite IH].
  apply andb_true_iff in E as [E1 E2].
  apply byte_dec_bl in E1, E2. subst.
  apply Forall_cons in H as [H _]. discriminate H.
Qed.

Lemma map_rstrip_clean (lines : list (list byte)) :
  Forall (fun l => rstrip l = l) lines -> map rstrip lines = lines.
Proof. induction 1 as [|l ls Hl _ IH]; simpl; congruence. Qed.

Lemma formatted_fixed (s : list byte) : formatted s -> new_content s = s.
Proof.
  intros [Hlines (body & -> & Hbody)]. unfold new_content.
  rewrite (map_rstrip_clean _ Hlines), join_split.
  rewrite bytes_rstrip_spaces_app by (now repeat constructor).
  now rewrite Hbody.
Qed.

Lemma new_content_formatted (content : list byte) :
  formatted (new_content content).
Proof.
  unfold new_content.
  set (lines := map rstrip (split_lf content)).
  assert (Forall (fun l => rstrip l = l) lines) as Hclean.
  { apply Forall_map, Forall_forall. intros l _. apply bytes_rstrip_idem. }
  assert (split_lf (join_lf lines) = lines) as Hsplit.
  { apply split_join.
    - unfold lines. intros E. apply map_eq_nil in E.
      now apply split_lf_not_nil in E.
    - apply Forall_map. eapply Forall_impl; [apply split_lf_lines_plain|].
      intros l Hl Hin. apply Hl. eapply elem_of_sublist; [exact Hin|].
      apply rstrip_sublist. }
  destruct (bytes_rstrip_split (join_lf lines)) as (ws & _ & E).
  assert (Forall (fun l => rstrip l = l) (split_lf (rstrip (join_lf lines))))
    as Hbody.
  { apply (lines_clean_prefix _ ws); [|apply bytes_rstrip_idem].
    now rewrite <- E, Hsplit. }
  split.
  - rewrite split_lf_app. apply Forall_app. split; [exact Hbody|].
    now repeat constructor.
  - eexists. split; [reflexivity|apply bytes_rstrip_idem].
Qed.

Lemma replace_crlf_step (b b' : byte) (s : list byte) :
  replace_crlf (b :: b' :: s)
  = if Byte.eqb b CR && Byte.eqb b' LF then LF :: replace_crlf s
    else b :: replace_crlf (b' :: s).
Proof. reflexivity. Qed.

Lemma replace_crlf_drops_cr (s : list byte) :
  replace_crlf s `sublist_of` s
  /\ filter (fun b => is_space b = false) (replace_crlf s)
     = filter (fun b => is_space b = false) s.
Proof.
  remember (length s) as n eqn:Hn. revert s Hn.
  induction n as [n IH] using lt_wf_ind. intros s ->.
  destruct s as [|b [|b' s]]; [easy|easy|].
  rewrite replace_crlf_step.
  destruct (Byte.eqb b CR && Byte.eqb b' LF) eqn:E.
  - apply andb_true_iff in E as [E1 E2]. apply byte_dec_bl in E1, E2. subst.
    destruct (IH (length s) ltac:(simpl; lia) s eq_refl) as [H1 H2].
    split; [now apply sublist_cons, sublist_skip|].
    rewrite !filter_cons. simpl. exact H2.
  - destruct (IH (length (b' :: s)) ltac:(simpl; lia) (b' :: s) eq_refl)
      as [H1 H2].
    split; [now apply sublist_skip|].
    rewrite (filter_cons _ b (b' :: s)), (filter_cons _ b), H2. reflexivity.
Qed.

Lemma to_crlf_head (s : list byte) :
  forall t, to_crlf s <> LF :: t.
Proof.
  destruct s as [|b s]; simpl; [discriminate|].
  destruct (Byte.eqb b LF) eqn:E; [discriminate|].
  intros t [= -> _]. discriminate E.
Qed.

Lemma replace_to_crlf (s : list byte) : replace_crlf (to_crlf s) = s.
Proof.
  induction s as [|b s IH]; [reflexivity|]. simpl.
  destruct (Byte.eqb b LF) eqn:E.
  - apply byte_dec_bl in E. subst. rewrite replace_crlf_step. simpl.
    now rewrite IH.
  - pose proof (to_crlf_head s) as Hh.
    destruct (to_crlf s) as [|c t] eqn:Et.
    + simpl in *. now rewrite <- IH.
    + rewrite replace_crlf_step.
      destruct (Byte.eqb c LF) eqn:Ec.
      * apply byte_dec_bl in Ec. subst. now elim (Hh t).
      * rewrite andb_false_r. now rewrite IH.
Qed.

Lemma to_crlf_longer (s : list byte) :
  LF ∈ s -> length s < length (to_crlf s).
Proof.
  assert (forall t, length t <= length (to_crlf t)) as Hle.
  { induction t as [|b t IH]; simpl; [lia|].
    destruct (Byte.eqb b LF); simpl; lia. }
  induction s as [|b s IH]; intros H; [now apply elem_of_nil in H|].
  simpl. destruct (Byte.eqb b LF) eqn:E.
  - specialize (Hle s). simpl. lia.
  - apply elem_of_cons in H as [<-|H]; [discriminate E|].
    specialize (IH H). simpl. lia.
Qed.

(** ** Properties of [new_content] and [fix_file] *)

(** X6. Whatever the input, the text [fix_file] computes has no line that
    ends with whitespace, ends with exactly one newline that no whitespace
    precedes, and holds no carriage return directly before a newline. *)
Theorem new_content_shape (content : list byte) :
  Forall (fun l => rstrip l = l) (split_lf (new_content content))
  /\ (exists body,
        new_content content = body ++ [LF] /\ rstrip body = body)
  /\ replace_crlf (new_content content) = new_content content.
Proof.
  destruct (new_content_formatted content) as [H1 H2].
  split; [exact H1|]. split; [exact H2|]. now apply clean_lines_no_crlf.
Qed.

(** X7. Formatting is idempotent, and the texts it leaves unchanged are
    exactly those in final form: every line free of trailing whitespace and
    the text a body without trailing whitespace followed by one newline. *)
Theorem new_content_fixed_points (content : list byte) :
  new_content (new_content content) = new_content content
  /\ (new_content content = content <-> formatted content).
Proof.
  split.
  - apply formatted_fixed, new_content_formatted.
  - split; [|apply formatted_fixed].
    intros E. rewrite <- E. apply new_content_formatted.
Qed.

(** X8. Fixing only ever removes whitespace: the new content is a
    subsequence of the bytes read followed by one newline, and the bytes
    that are not whitespace are kept, all of them and in order. *)
Theorem fix_only_drops_whitespace (raw : list byte) :
  exists body,
    new_content (replace_crlf raw) = body ++ [LF]
    /\ body `sublist_of` raw
    /\ filter (fun b => is_space b = false) body
       = filter (fun b => is_space b = false) raw.
Proof.
  destruct (replace_crlf_drops_cr raw) as [Hsub Hfil].
  unfold new_content. eexists. split; [reflexivity|]. split.
  - etransitivity; [apply rstrip_sublist|].
    etransitivity; [|exact Hsub].
    rewrite <- (join_split (replace_crlf raw)) at 2.
    apply join_lf_sublist.
    apply Forall2_fmap_l, Forall_Forall2_diag, Forall_forall.
    intros l _. apply rstrip_sublist.
  - rewrite rstrip_keeps_text, join_lf_keeps_text, join_split. exact Hfil.
Qed.

Lemma fix_file_cases (fs : Store (list byte)) (file_path : string) :
  (has_ext file_path = false /\ fix_file fs file_path = (fs, [], false))
  \/ (has_ext file_path = true /\ read fs file_path = None
      /\ fix_file fs file_path = (fs, [ErrorFixing file_path], false))
  \/ (has_ext file_path = true
      /\ exists raw,
           read fs file_path = Some raw
           /\ new_content (replace_crlf raw) = replace_crlf raw
           /\ fix_file fs file_path = (fs, [], false))
  \/ (has_ext file_path = true
      /\ exists raw,
           read fs file_path = Some raw
           /\ new_content (replace_crlf raw) <> replace_crlf raw
           /\ can_write fs file_path = false
           /\ fix_file fs file_path = (fs, [ErrorFixing file_path], false))
  \/ (has_ext file_path = true
      /\ exists raw fs',
           read fs file_path = Some raw
           /\ new_content (replace_crlf raw) <> replace_crlf raw
           /\ write fs file_path (new_content (replace_crlf raw)) = Some fs'
           /\ fix_file fs file_path = (fs', [], true)).
Proof.
  unfold fix_file. destruct (has_ext file_path); [|now left].
  right. destruct (read fs file_path) as [raw|]; [|now left].
  right. cbv zeta.
  destruct (decide (replace_crlf raw <> new_content (replace_crlf raw)))
    as [Hne|Heq].
  - right.
    destruct (write fs file_path (new_content (replace_crlf raw)))
      as [fs'|] eqn:W.
    + right. split; [reflexivity|]. exists raw, fs'. repeat split; congruence.
    + left. split; [reflexivity|]. exists raw. apply write_None in W.
      repeat split; solve [congruence | exact W].
  - left. split; [reflexivity|]. exists raw. repeat split.
    destruct (decide (new_content (replace_crlf raw) = replace_crlf raw));
      [assumption|]. elim Heq. congruence.
Qed.

(** What [fix_file] returns and prints at a path depends on the store only
    through what the path reads and whether it can be written. *)
Lemma fix_file_local (fs1 fs2 : Store (list byte)) (file_path : string) :
  read fs1 file_path = read fs2 file_path ->
  can_write fs1 file_path = can_write fs2 file_path ->
  (fix_file fs1 file_path).2 = (fix_file fs2 file_path).2
  /\ (fix_file fs1 file_path).1.2 = (fix_file fs2 file_path).1.2.
Proof.
  intros E W. unfold fix_file, write. rewrite E, W.
  destruct (has_ext file_path); [|easy].
  destruct (read fs2 file_path) as [raw|]; [|easy]. cbv zeta.
  destruct (decide (replace_crlf raw <> new_content (replace_crlf raw)));
    [|easy].
  now destruct (can_write fs2 file_path).
Qed.

(** A file in final form needs no fix. *)
Lemma fix_file_formatted (fs : Store (list byte)) (file_path : string)
    (text : list byte) :
  read fs file_path = Some text -> formatted text ->
  (fix_file fs file_path).2 = false.
Proof.
  intros R Hf. unfold fix_file. rewrite R.
  destruct (has_ext file_path); [|reflexivity]. cbv zeta.
  rewrite (clean_lines_no_crlf _ (proj1 Hf)), (formatted_fixed _ Hf).
  now destruct (decide (text <> text)).
Qed.

(** X9. What [fix_file] changes and what it leaves alone. It adds and
    removes no file, and changes no link and no permission. A path that
    names another file than the path given reads as before. It returns
    [True] only when the path has a listed extension, can be read and can
    be written, and then that path, and every path that names the same
    file, holds the formatted text; when it returns [False] the store is
    unchanged; and it prints only when the file cannot be read or cannot be
    opened for writing. *)
Theorem fix_file_frame (fs fs' : Store (list byte)) (file_path : string)
    (out : list Printed) (fixed : bool) :
  fix_file fs file_path = (fs', out, fixed) ->
  link_target fs' = link_target fs
  /\ can_write fs' = can_write fs
  /\ dom (file_content fs') = dom (file_content fs)
  /\ (forall p, real_path fs p <> real_path fs file_path -> fs' !! p = fs !! p)
  /\ (fixed = false -> fs' = fs)
  /\ (fixed = true ->
      has_ext file_path = true /\ can_write fs file_path = true
      /\ exists raw,
           fs !! file_path = Some raw
           /\ forall p, real_path fs p = real_path fs file_path ->
                        fs' !! p = Some (new_content (replace_crlf raw)))
  /\ (out <> [] -> fs !! file_path = None \/ can_write fs file_path = false).
Proof.
  intros E. unfold lookup, store_lookup.
  destruct (fix_file_cases fs file_path)
    as [[_ E']|[(_ & Hnone & E')|[(_ & raw & _ & _ & E')
       |[(_ & raw & _ & _ & Hw & E')|(Hext & raw & fs1 & Hraw & _ & W & E')]]]];
    rewrite E' in E; injection E as <- <- <-.
  - repeat split; try easy.
  - repeat split; try easy. intros _. now left.
  - repeat split; try easy.
  - repeat split; try easy. intros _. now right.
  - pose proof W as W'. apply write_Some in W' as [Hw Efs].
    split; [now rewrite Efs|]. split; [now rewrite Efs|].
    split; [|split; [|split; [|split]]]; try easy.
    + rewrite Efs. simpl. apply dom_insert_lookup_L.
      unfold read in Hraw. now rewrite Hraw.
    + intros p Hp. exact (read_write_other _ _ _ _ _ W Hp).
    + intros _. split; [exact Hext|]. split; [exact Hw|].
      exists raw. split; [exact Hraw|].
      intros p Hp. exact (read_write_alias _ _ _ _ _ W Hp).
Qed.

Lemma fix_file_frame_witness :
  link_target (plain (<["a.md" := ["x"%byte; LF]]>
                        {[ "a.md" := ["x"%byte; " "%byte] ]}))
  = link_target (plain {[ "a.md" := ["x"%byte; " "%byte] ]})
  /\ can_write (plain (<["a.md" := ["x"%byte; LF]]>
                         {[ "a.md" := ["x"%byte; " "%byte] ]}))
     = can_write (plain {[ "a.md" := ["x"%byte; " "%byte] ]})
  /\ dom (file_content (plain (<["a.md" := ["x"%byte; LF]]>
                                 {[ "a.md" := ["x"%byte; " "%byte] ]})))
     = dom (file_content (plain {[ "a.md" := ["x"%byte; " "%byte] ]}))
  /\ (forall p,
        real_path (plain {[ "a.md" := ["x"%byte; " "%byte] ]}) p
        <> real_path (plain {[ "a.md" := ["x"%byte; " "%byte] ]}) "a.md" ->
        plain (<["a.md" := ["x"%byte; LF]]>
                 {[ "a.md" := ["x"%byte; " "%byte] ]}) !! p
        = plain {[ "a.md" := ["x"%byte; " "%byte] ]} !! p)
  /\ (true = false ->
      plain (<["a.md" := ["x"%byte; LF]]> {[ "a.md" := ["x"%byte; " "%byte] ]})
      = plain {[ "a.md" := ["x"%byte; " "%byte] ]})
  /\ (true = true ->
      has_ext "a.md" = true
      /\ can_write (plain {[ "a.md" := ["x"%byte; " "%byte] ]}) "a.md" = true
      /\ exists raw,
           plain {[ "a.md" := ["x"%byte; " "%byte] ]} !! "a.md" = Some raw
           /\ forall p,
                real_path (plain {[ "a.md" := ["x"%byte; " "%byte] ]}) p
                = real_path (plain {[ "a.md" := ["x"%byte; " "%byte] ]}) "a.md" ->
                plain (<["a.md" := ["x"%byte; LF]]>
                         {[ "a.md" := ["x"%byte; " "%byte] ]}) !! p
                = Some (new_content (replace_crlf raw)))
  /\ (@nil Printed <> [] ->
      plain {[ "a.md" := ["x"%byte; " "%byte] ]} !! "a.md" = None
      \/ can_write (plain {[ "a.md" := ["x"%byte; " "%byte] ]}) "a.md" = false).
Proof.
  apply (fix_file_frame (plain {[ "a.md" := ["x"%byte; " "%byte] ]}) _ "a.md"
           [] true).
  vm_compute. reflexivity.
Defined.

(** X10. A second call on the same path finds nothing to fix: it returns
    [False], leaves the store as the first call left it, and prints what
    the first call printed. *)
Theorem fix_file_twice (fs fs' : Store (list byte)) (file_path : string)
    (out : list Printed) (fixed : bool) :
  fix_file fs file_path = (fs', out, fixed) ->
  fix_file fs' file_path = (fs', out, false).
Proof.
  intros E.
  destruct (fix_file_cases fs file_path)
    as [[_ E']|[(_ & Hnone & E')|[(_ & raw & _ & _ & E')
       |[(_ & raw & _ & _ & Hw & E')|(Hext & raw & fs1 & Hraw & _ & W & E')]]]];
    rewrite E' in E; injection E as <- <- <-; try exact E'.
  unfold fix_file. rewrite Hext, (read_write_same _ _ _ _ W). cbv zeta.
  pose proof (new_content_formatted (replace_crlf raw)) as Hf.
  rewrite (clean_lines_no_crlf _ (proj1 Hf)), (formatted_fixed _ Hf).
  destruct (decide (new_content (replace_crlf raw)
                    <> new_content (replace_crlf raw))); easy.
Qed.

Lemma fix_file_twice_witness :
  fix_file (plain (<["a.md" := ["x"%byte; LF]]>
                     {[ "a.md" := ["x"%byte; " "%byte] ]}))
    "a.md"
  = (plain (<["a.md" := ["x"%byte; LF]]> {[ "a.md" := ["x"%byte; " "%byte] ]}),
     [], false).
Proof.
  apply (fix_file_twice (plain {[ "a.md" := ["x"%byte; " "%byte] ]}) _ "a.md"
           [] true).
  vm_compute. reflexivity.
Defined.

(** X11. Windows line ends alone are not fixed. A file with a listed
    extension whose text is in final form except that every newline is
    preceded by a carriage return differs from what formatting would give,
    yet [fix_file] compares the text after the CRLF replacement, finds no
    difference, writes nothing and returns [False]. *)
Theorem fix_file_keeps_crlf (fs : Store (list byte)) (file_path : string)
    (text : list byte) :
  has_ext file_path = true ->
  formatted text ->
  fs !! file_path = Some (to_crlf text) ->
  fix_file fs file_path = (fs, [], false)
  /\ new_content (replace_crlf (to_crlf text)) = text
  /\ to_crlf text <> text.
Proof.
  intros Hext Hf Hfs. pose proof (formatted_fixed _ Hf) as Hfix.
  unfold lookup, store_lookup in Hfs.
  split; [|split].
  - unfold fix_file. rewrite Hext, Hfs. cbv zeta.
    rewrite replace_to_crlf, Hfix.
    now destruct (decide (text <> text)).
  - now rewrite replace_to_crlf.
  - intros E. destruct Hf as [_ (body & -> & _)].
    assert (LF ∈ body ++ [LF]) as Hin
      by (apply elem_of_app; right; apply elem_of_cons; now left).
    apply to_crlf_longer in Hin. rewrite E in Hin. lia.
Qed.

Lemma fix_file_keeps_crlf_witness :
  fix_file (plain {[ "a.sh" := ["x"%byte; CR; LF; "y"%byte; CR; LF] ]}) "a.sh"
  = (plain {[ "a.sh" := ["x"%byte; CR; LF; "y"%byte; CR; LF] ]}, [], false)
  /\ new_content (replace_crlf (to_crlf ["x"%byte; LF; "y"%byte; LF]))
     = ["x"%byte; LF; "y"%byte; LF]
  /\ to_crlf ["x"%byte; LF; "y"%byte; LF] <> ["x"%byte; LF; "y"%byte; LF].
Proof.
  apply (fix_file_keeps_crlf
           (plain {[ "a.sh" := ["x"%byte; CR; LF; "y"%byte; CR; LF] ]}) "a.sh"
           ["x"%byte; LF; "y"%byte; LF]).
  - reflexivity.
  - split; [repeat (constructor; try reflexivity)|].
    exists ["x"%byte; LF; "y"%byte]. split; reflexivity.
  - vm_compute. reflexivity.
Defined.

(** X12. A file that holds nothing but whitespace, the empty file
    included, is formatted to a single newline. Unless the file, after the
    CRLF replacement, is that newline already, [fix_file] writes the
    newline and returns [True] when the file can be opened for writing, and
    prints the error and returns [False], leaving the file as it is, when
    it cannot. *)
Theorem fix_file_blank (fs : Store (list byte)) (file_path : string)
    (raw : list byte) :
  has_ext file_path = true ->
  fs !! file_path = Some raw ->
  Forall (fun b => is_space b = true) raw ->
  new_content (replace_crlf raw) = [LF]
  /\ (replace_crlf raw <> [LF] -> can_write fs file_path = true ->
      exists fs', fix_file fs file_path = (fs', [], true)
                  /\ fs' !! file_path = Some [LF])
  /\ (replace_crlf raw <> [LF] -> can_write fs file_path = false ->
      fix_file fs file_path = (fs, [ErrorFixing file_path], false))
  /\ (replace_crlf raw = [LF] -> fix_file fs file_path = (fs, [], false)).
Proof.
  intros Hext Hfs Hblank. unfold lookup, store_lookup in *.
  assert (new_content (replace_crlf raw) = [LF]) as Hnew.
  { destruct (replace_crlf_drops_cr raw) as [Hsub _].
    unfold new_content.
    set (joined := join_lf (map rstrip (split_lf (replace_crlf raw)))).
    assert (rstrip joined = []) as ->; [|reflexivity].
    apply bytes_rstrip_nil_spaces.
    assert (joined `sublist_of` raw) as Hj.
    { etransitivity; [|exact Hsub]. unfold joined.
      rewrite <- (join_split (replace_crlf raw)) at 2.
      apply join_lf_sublist.
      apply Forall2_fmap_l, Forall_Forall2_diag, Forall_forall.
      intros l _. apply rstrip_sublist. }
    rewrite Forall_forall in Hblank |- *.
    intros b Hb. apply Hblank. eapply elem_of_sublist; [exact Hb|exact Hj]. }
  split; [exact Hnew|].
  unfold fix_file. rewrite Hext, Hfs. cbv zeta. rewrite Hnew.
  split; [|split].
  - intros Hne Hw.
    destruct (decide (replace_crlf raw <> [LF])); [|easy].
    destruct (write fs file_path [LF]) as [fs'|] eqn:W.
    + exists fs'. split; [reflexivity|]. exact (read_write_same _ _ _ _ W).
    + apply write_None in W. congruence.
  - intros Hne Hw.
    destruct (decide (replace_crlf raw <> [LF])); [|easy].
    now rewrite (proj2 (write_None fs file_path [LF]) Hw).
  - intros Heq. now destruct (decide (replace_crlf raw <> [LF])).
Qed.

Lemma fix_file_blank_witness :
  new_content (replace_crlf []) = [LF]
  /\ (replace_crlf [] <> [LF] ->
      can_write (plain {[ "empty.toml" := @nil byte ]}) "empty.toml" = true ->
      exists fs',
        fix_file (plain {[ "empty.toml" := @nil byte ]}) "empty.toml" = (fs', [], true)
        /\ fs' !! "empty.toml" = Some [LF])
  /\ (replace_crlf [] <> [LF] ->
      can_write (plain {[ "empty.toml" := @nil byte ]}) "empty.toml" = false ->
      fix_file (plain {[ "empty.toml" := @nil byte ]}) "empty.toml"
      = (plain {[ "empty.toml" := @nil byte ]}, [ErrorFixing "empty.toml"], false))
  /\ (replace_crlf [] = [LF] ->
      fix_file (plain {[ "empty.toml" := @nil byte ]}) "empty.toml"
      = (plain {[ "empty.toml" := @nil byte ]}, [], false)).
Proof.
  apply (fix_file_blank (plain {[ "empty.toml" := @nil byte ]}) "empty.toml" []).
  - reflexivity.
  - vm_compute. reflexivity.
  - constructor.
Defined.

(** ** The loops of [main] *)

Lemma fold_visit_file (root : string) (names : list string) (st : Run) :
  fold_left (visit_file root) names st
  = fold_left count_fix (map (PyPath.join root) names) st.
Proof. revert st. induction names as [|f names IH]; intros st; simpl; auto. Qed.

Lemma fold_visit_dir (walk : list (string * list string * list string))
    (st : Run) :
  fold_left visit_dir walk st = fold_left count_fix (visited walk) st.
Proof.
  revert st. induction walk as [|[[root dirs] names] walk IH]; intros st;
    [reflexivity|].
  simpl. rewrite fold_left_app, IH. f_equal.
  destruct (skipped root); [reflexivity|apply fold_visit_file].
Qed.

Lemma elem_of_visited (walk : list (string * list string * list string))
    (p : string) :
  p ∈ visited walk
  <-> exists root dirs names file,
        (root, dirs, names) ∈ walk /\ skipped root = false
        /\ file ∈ names /\ p = PyPath.join root file.
Proof.
  induction walk as [|[[root dirs] names] walk IH]; simpl.
  - split; [intros H; now apply elem_of_nil in H|].
    intros (? & ? & ? & ? & H & _). now apply elem_of_nil in H.
  - rewrite elem_of_app, IH. split.
    + intros [H|(r & d & n & f & Hin & Hrest)].
      * destruct (skipped root) eqn:Hs; [now apply elem_of_nil in H|].
        apply list_elem_of_fmap in H as (f & -> & Hf).
        exists root, dirs, names, f. repeat split; [left|exact Hs|exact Hf].
      * exists r, d, n, f. split; [now right|exact Hrest].
    + intros (r & d & n & f & Hin & Hs & Hf & ->).
      apply elem_of_cons in Hin as [[= -> -> ->]|Hin].
      * left. rewrite Hs. apply list_elem_of_fmap. now exists f.
      * right. now exists r, d, n, f.
Qed.

Lemma count_fix_cases (st : Run) (path : string) :
  (files (count_fix st path) = files st
   /\ fixed_count (count_fix st path) = fixed_count st
   /\ (fix_file (files st) path).2 = false)
  \/ (has_ext path = true
      /\ fixed_count (count_fix st path) = fixed_count st + 1
      /\ exists raw,
           read (files st) path = Some raw
           /\ write (files st) path (new_content (replace_crlf raw))
              = Some (files (count_fix st path))).
Proof.
  unfold count_fix.
  destruct (fix_file_cases (files st) path)
    as [[_ E]|[(_ & _ & E)|[(_ & raw & _ & _ & E)
       |[(_ & raw & _ & _ & _ & E)|(Hext & raw & fs' & Hraw & _ & W & E)]]]];
    rewrite E; simpl; [now left|now left|now left|now left|].
  right. split; [exact Hext|]. split; [reflexivity|]. now exists raw.
Qed.

Lemma stable_unchanged (fs : Store (list byte)) (path : string) :
  (fix_file fs path).2 = false -> (fix_file fs path).1.1 = fs.
Proof.
  destruct (fix_file_cases fs path)
    as [[_ E]|[(_ & _ & E)|[(_ & raw & _ & _ & E)
       |[(_ & raw & _ & _ & _ & E)|(_ & raw & fs' & _ & _ & _ & E)]]]];
    rewrite E; simpl; easy.
Qed.

Lemma count_fix_files (st : Run) (path : string) :
  files (count_fix st path) = (fix_file (files st) path).1.1.
Proof. unfold count_fix. now destruct (fix_file (files st) path) as [[? ?] ?]. Qed.

(** A step of the loop keeps stable every path that was stable, and makes
    its own path stable. *)
Lemma count_fix_stable (st : Run) (path p : string) :
  p = path \/ (fix_file (files st) p).2 = false ->
  (fix_file (files (count_fix st path)) p).2 = false.
Proof.
  intros Hp.
  destruct (count_fix_cases st path)
    as [(E & _ & Hst)|(_ & _ & raw & Hraw & W)].
  - rewrite E. now destruct Hp as [->|Hp].
  - pose proof (new_content_formatted (replace_crlf raw)) as Hf.
    destruct (decide (real_path (files st) p = real_path (files st) path))
      as [Hsame|Hother].
    + apply (fix_file_formatted _ _ _ (read_write_alias _ _ _ _ _ W Hsame) Hf).
    + destruct Hp as [->|Hp]; [now elim Hother|].
      rewrite <- Hp. apply fix_file_local.
      * exact (read_write_other _ _ _ _ _ W Hother).
      * apply write_Some in W as [_ ->]. reflexivity.
Qed.

(** After the loops every path handed to [fix_file] is stable: a further
    call on it returns [False]. *)
Lemma run_stable (paths : list string) (st : Run) :
  forall p, p ∈ paths ->
    (fix_file (files (fold_left count_fix paths st)) p).2 = false.
Proof.
  induction paths as [|q paths IH] using rev_ind; intros p Hp;
    [now apply elem_of_nil in Hp|].
  rewrite fold_left_app. simpl. apply count_fix_stable.
  apply elem_of_app in Hp as [Hp|Hp]; [right; now apply IH|].
  apply elem_of_cons in Hp as [->|Hp]; [now left|now apply elem_of_nil in Hp].
Qed.

Lemma stable_run (paths : list string) (st : Run) :
  (forall p, p ∈ paths -> (fix_file (files st) p).2 = false) ->
  files (fold_left count_fix paths st) = files st
  /\ fixed_count (fold_left count_fix paths st) = fixed_count st.
Proof.
  revert st. induction paths as [|q paths IH]; intros st H; [easy|]. simpl.
  assert ((fix_file (files st) q).2 = false) as Hq by (apply H; left).
  assert (files (count_fix st q) = files st) as Ef
    by (rewrite count_fix_files; now apply stable_unchanged).
  assert (fixed_count (count_fix st q) = fixed_count st) as Ec.
  { unfold count_fix. destruct (fix_file (files st) q) as [[? ?] r].
    simpl in Hq. now subst r. }
  destruct (IH (count_fix st q)) as [-> ->]; [|easy].
  intros p Hp. rewrite Ef. apply H. now right.
Qed.

Lemma run_frame (paths : list string) (st : Run) :
  link_target (files (fold_left count_fix paths st)) = link_target (files st)
  /\ can_write (files (fold_left count_fix paths st)) = can_write (files st)
  /\ dom (file_content (files (fold_left count_fix paths st)))
     = dom (file_content (files st))
  /\ forall q,
       read (files (fold_left count_fix paths st)) q <> read (files st) q ->
       exists p,
         p ∈ paths /\ has_ext p = true /\ can_write (files st) p = true
         /\ is_Some (read (files st) p)
         /\ real_path (files st) q = real_path (files st) p.
Proof.
  revert st. induction paths as [|q0 paths IH]; intros st; [easy|]. simpl.
  destruct (IH (count_fix st q0)) as (Hl & Hw & Hd & Hch).
  assert (link_target (files (count_fix st q0)) = link_target (files st)
          /\ can_write (files (count_fix st q0)) = can_write (files st)
          /\ dom (file_content (files (count_fix st q0)))
             = dom (file_content (files st))) as (Hl0 & Hw0 & Hd0).
  { destruct (count_fix_cases st q0) as [(-> & _)|(_ & _ & raw & Hraw & W)];
      [easy|].
    apply write_Some in W as [_ ->]. simpl. repeat split.
    apply dom_insert_lookup_L. unfold read in Hraw. now rewrite Hraw. }
  assert (forall p, real_path (files (count_fix st q0)) p
                    = real_path (files st) p) as Hrp
    by (intros p; unfold real_path; now rewrite Hl0).
  split; [congruence|]. split; [congruence|]. split; [congruence|].
  intros q Hq.
  destruct (decide (read (files (count_fix st q0)) q = read (files st) q))
    as [E|Hne].
  - rewrite <- E in Hq. destruct (Hch q Hq) as (p & Hin & Hext & Hcw & Hs & Hr).
    exists p. split; [now right|]. split; [exact Hext|].
    split; [now rewrite <- Hw0|]. split; [|now rewrite <- !Hrp].
    unfold read in *. rewrite Hrp in Hs.
    apply elem_of_dom. rewrite <- Hd0. now apply elem_of_dom.
  - destruct (count_fix_cases st q0) as [(E & _)|(Hext & _ & raw & Hraw & W)];
      [now rewrite E in Hne|].
    exists q0. split; [left|]. split; [exact Hext|].
    split; [now apply write_Some in W as [? _]|].
    split; [now rewrite Hraw|].
    destruct (decide (real_path (files st) q = real_path (files st) q0))
      as [?|Ho]; [assumption|].
    elim Hne. exact (read_write_other _ _ _ _ _ W Ho).
Qed.

Lemma main_files (walk : list (string * list string * list string))
    (fs : Store (list byte)) :
  files (main walk fs)
  = files (fold_left count_fix (visited walk)
             {| files := fs; printed := []; fixed_count := 0 |})
  /\ fixed_count (main walk fs)
     = fixed_count (fold_left count_fix (visited walk)
                      {| files := fs; printed := []; fixed_count := 0 |}).
Proof. unfold main. simpl. now rewrite fold_visit_dir. Qed.

Lemma main_prints_count (walk : list (string * list string * list string))
    (fs : Store (list byte)) :
  last (printed (main walk fs))
  = Some (FixedFiles (fixed_count (main walk fs))).
Proof. unfold main. simpl. apply last_snoc. Qed.

(** X13. What a run of [main] can change. No file is added or removed and
    no link or permission changes. A path that reads differently afterwards
    names the same file as a path [main] visited, that is a file of a
    walked directory whose root contains none of the skip words, which has
    a listed extension, could be read and could be opened for writing. *)
Theorem main_frame (walk : list (string * list string * list string))
    (fs : Store (list byte)) :
  link_target (files (main walk fs)) = link_target fs
  /\ can_write (files (main walk fs)) = can_write fs
  /\ dom (file_content (files (main walk fs))) = dom (file_content fs)
  /\ forall q,
       files (main walk fs) !! q <> fs !! q ->
       exists root dirs names file,
         (root, dirs, names) ∈ walk /\ skipped root = false
         /\ file ∈ names
         /\ has_ext (PyPath.join root file) = true
         /\ can_write fs (PyPath.join root file) = true
         /\ is_Some (fs !! PyPath.join root file)
         /\ real_path fs q = real_path fs (PyPath.join root file).
Proof.
  destruct (main_files walk fs) as [-> _].
  destruct (run_frame (visited walk)
              {| files := fs; printed := []; fixed_count := 0 |})
    as (Hl & Hw & Hd & Hc).
  split; [exact Hl|]. split; [exact Hw|]. split; [exact Hd|].
  intros q Hq. destruct (Hc q Hq) as (p & Hin & Hext & Hcw & Hsome & Hr).
  apply elem_of_visited in Hin as (root & dirs & names & file & H1 & H2 & H3 & ->).
  exists root, dirs, names, file. repeat split; assumption.
Qed.

(** X14. What a run of [main] achieves. Afterwards every file it visited
    that has a listed extension and can be opened for writing is, once the
    CRLF replacement is applied to it, in final form: no line ends with
    whitespace and the text ends with exactly one newline that no
    whitespace precedes. *)
Theorem main_formats_visited
    (walk : list (string * list string * list string))
    (fs : Store (list byte)) (root : string) (dirs names : list string)
    (file : string) (content : list byte) :
  (root, dirs, names) ∈ walk ->
  skipped root = false ->
  file ∈ names ->
  has_ext (PyPath.join root file) = true ->
  can_write fs (PyPath.join root file) = true ->
  files (main walk fs) !! PyPath.join root file = Some content ->
  formatted (replace_crlf content).
Proof.
  intros Hin Hs Hf Hext Hcw Hc. unfold lookup, store_lookup in Hc.
  destruct (main_files walk fs) as [E _]. rewrite E in Hc.
  assert (PyPath.join root file ∈ visited walk) as Hv
    by (apply elem_of_visited; now exists root, dirs, names, file).
  pose proof (run_stable (visited walk)
                {| files := fs; printed := []; fixed_count := 0 |} _ Hv) as Hst.
  destruct (run_frame (visited walk)
              {| files := fs; printed := []; fixed_count := 0 |})
    as (_ & Hw & _).
  unfold fix_file, write in Hst. rewrite Hext, Hc, Hw in Hst.
  cbv zeta in Hst. simpl in Hst. rewrite Hcw in Hst.
  destruct (decide (replace_crlf content <> new_content (replace_crlf content)))
    as [|Heq]; [discriminate Hst|].
  destruct (decide (replace_crlf content = new_content (replace_crlf content)))
    as [->|]; [apply new_content_formatted|now elim Heq].
Qed.

Lemma main_formats_visited_witness :
  formatted (replace_crlf ["x"%byte; LF]).
Proof.
  apply (main_formats_visited
           [(".", ["src"], ["a.rs"; "b.txt"]); ("./.git", [], ["c.md"])]
           (plain {[ "./a.rs" := ["x"%byte; " "%byte];
                     "./b.txt" := [" "%byte];
                     "./.git/c.md" := [" "%byte] ]})
           "." ["src"] ["a.rs"; "b.txt"] "a.rs" ["x"%byte; LF]).
  - left.
  - reflexivity.
  - left.
  - reflexivity.
  - reflexivity.
  - vm_compute. reflexivity.
Defined.

(** X15. A second run of [main] over the same walk finds nothing to fix:
    it leaves every file as the first run left it and counts zero fixed
    files. *)
Theorem main_second_run (walk : list (string * list string * list string))
    (fs : Store (list byte)) :
  files (main walk (files (main walk fs))) = files (main walk fs)
  /\ fixed_count (main walk (files (main walk fs))) = 0
  /\ last (printed (main walk (files (main walk fs)))) = Some (FixedFiles 0).
Proof.
  destruct (main_files walk (files (main walk fs))) as [E1 E2].
  destruct (stable_run (visited walk)
              {| files := files (main walk fs); printed := [];
                 fixed_count := 0 |}) as [F1 F2].
  { intros p Hp.
    change (files {| files := files (main walk fs); printed := [];
                     fixed_count := 0 |}) with (files (main walk fs)).
    rewrite (proj1 (main_files walk fs)). now apply run_stable. }
  cbn [files fixed_count] in F1, F2. rewrite F1 in E1. rewrite F2 in E2.
  split; [exact E1|]. split; [exact E2|].
  now rewrite main_prints_count, E2.
Qed.

(** ** The skip test *)

Lemma str_append_assoc (a b c : string) :
  String.append (String.append a b) c = String.append a (String.append b c).
Proof.
  induction a as [|x a IH]; [reflexivity|].
  change (String x (String.append (String.append a b) c)
          = String x (String.append a (String.append b c))).
  now rewrite IH.
Qed.

Lemma str_append_cons (x : ascii) (a b : string) :
  String.append (String x a) b = String x (String.append a b).
Proof. reflexivity. Qed.

Lemma str_prefix_iff (p s : string) :
  String.prefix p s = true <-> exists t, s = String.append p t.
Proof.
  revert s. induction p as [|c p IH]; intros s.
  - split; [intros _; now exists s|intros _; now destruct s].
  - destruct s as [|d s]; simpl.
    + split; [discriminate|intros [t E]; discriminate E].
    + destruct (Ascii.ascii_dec c d) as [->|Hne].
      * rewrite IH. split; intros [t E]; exists t.
        -- now rewrite E.
        -- rewrite str_append_cons in E. now injection E.
      * split; [discriminate|]. intros [t E].
        rewrite str_append_cons in E. injection E as E _. congruence.
Qed.

Lemma contains_iff (sub s : string) :
  PyPath.contains sub s = true
  <-> exists a b, s = String.append a (String.append sub b).
Proof.
  split.
  - induction s as [|c s IH].
    + change (PyPath.contains sub EmptyString)
        with (String.prefix sub EmptyString || false).
      rewrite orb_true_iff, str_prefix_iff.
      intros [[t E]|H]; [|discriminate]. now exists EmptyString, t.
    + change (PyPath.contains sub (String c s))
        with (String.prefix sub (String c s) || PyPath.contains sub s).
      rewrite orb_true_iff, str_prefix_iff.
      intros [[t E]|H]; [now exists EmptyString, t|].
      destruct (IH H) as (a & b & ->). now exists (String c a), b.
  - intros (a & b & ->). induction a as [|c a IH].
    + change (String.append EmptyString (String.append sub b))
        with (String.append sub b).
      assert (String.prefix sub (String.append sub b) = true) as Hp
        by (apply str_prefix_iff; now exists b).
      destruct (String.append sub b) as [|x t];
        [change (PyPath.contains sub EmptyString)
           with (String.prefix sub EmptyString || false)
        |change (PyPath.contains sub (String x t))
           with (String.prefix sub (String x t) || PyPath.contains sub t)];
        now rewrite Hp.
    + rewrite str_append_cons.
      change (PyPath.contains sub
                (String c (String.append a (String.append sub b))))
        with (String.prefix sub
                (String c (String.append a (String.append sub b)))
              || PyPath.contains sub (String.append a (String.append sub b))).
      rewrite IH. apply orb_true_r.
Qed.

(** X16. A directory is skipped exactly when its root path contains
    [".git"], ["target"] or ["vcpkg"] anywhere, as part of any name: so
    ["./.github"] and ["./docs/targets"] are skipped like ["./.git"], and
    the fourth word of the list, ["vcpkg_installed"], never decides. *)
Theorem skipped_iff_substring (root : string) :
  skipped root = true
  <-> exists a b w,
        w ∈ [".git"; "target"; "vcpkg"]
        /\ root = String.append a (String.append w b).
Proof.
  unfold skipped, skip_words. simpl. rewrite !orb_true_iff, !contains_iff.
  split.
  - intros [(a & b & ->)|[(a & b & ->)|[(a & b & ->)|[(a & b & ->)|H]]]];
      [| | | |discriminate].
    + exists a, b, ".git". split; [set_solver|reflexivity].
    + exists a, b, "target". split; [set_solver|reflexivity].
    + exists a, b, "vcpkg". split; [set_solver|reflexivity].
    + exists a, (String.append "_installed" b), "vcpkg".
      split; [set_solver|reflexivity].
  - intros (a & b & w & Hw & ->).
    apply elem_of_cons in Hw as [->|Hw]; [left; now exists a, b|].
    apply elem_of_cons in Hw as [->|Hw]; [right; left; now exists a, b|].
    apply elem_of_cons in Hw as [->|Hw]; [right; right; left; now exists a, b|].
    now apply elem_of_nil in Hw.
Qed.

Lemma new_content_fixed_points_witness :
  formatted ["x"%byte; LF; LF; "y"%byte; LF].
Proof.
  apply (proj1 (proj2 (new_content_fixed_points
                         ["x"%byte; LF; LF; "y"%byte; LF]))).
  reflexivity.
Defined.

Lemma main_frame_witness :
  exists root dirs names file,
    (root, dirs, names)
    ∈ [(".", [".git"], ["a.rs"; "b.txt"]); ("./.git", [], ["c.md"])]
    /\ skipped root = false /\ file ∈ names
    /\ has_ext (PyPath.join root file) = true
    /\ can_write (plain {[ "./a.rs" := ["x"%byte; " "%byte];
                           "./.git/c.md" := [" "%byte] ]})
         (PyPath.join root file) = true
    /\ is_Some (plain {[ "./a.rs" := ["x"%byte; " "%byte];
                         "./.git/c.md" := [" "%byte] ]}
                !! PyPath.join root file)
    /\ real_path (plain {[ "./a.rs" := ["x"%byte; " "%byte];
                           "./.git/c.md" := [" "%byte] ]}) "./a.rs"
       = real_path (plain {[ "./a.rs" := ["x"%byte; " "%byte];
                             "./.git/c.md" := [" "%byte] ]})
           (PyPath.join root file).
Proof.
  apply (proj2 (proj2 (proj2 (main_frame
                  [(".", [".git"], ["a.rs"; "b.txt"]); ("./.git", [], ["c.md"])]
                  (plain {[ "./a.rs" := ["x"%byte; " "%byte];
                            "./.git/c.md" := [" "%byte] ]})))) "./a.rs").
  vm_compute. intros H. discriminate H.
Defined.

Lemma skipped_iff_substring_witness :
  skipped "./.github/workflows" = true.
Proof.
  apply (proj2 (skipped_iff_substring "./.github/workflows")).
  exists "./", "hub/workflows", ".git". split; [left|reflexivity].
Defined.

End FixFormattingFacts.

(** * Properties of [check_readmes.py] *)

Module CheckReadmesFacts.

Import CheckReadmes.

Lemma missing_readmes_filter (t : Tree) (crate_names : list string) :
  missing_readmes t crate_names
  = List.filter (fun crate => negb (exists_path t (readme_path crate)))
      crate_names.
Proof.
  unfold missing_readmes.
  assert (forall acc,
            fold_left
              (fun missing crate =>
                 if negb (exists_path t (readme_path crate))
                 then missing ++ [crate] else missing) crate_names acc
            = acc ++ List.filter
                       (fun crate => negb (exists_path t (readme_path crate)))
                       crate_names) as H; [|apply H].
  induction crate_names as [|c cs IH]; intros acc; simpl.
  - now rewrite app_nil_r.
  - rewrite IH. destruct (negb (exists_path t (readme_path c))); [|reflexivity].
    now rewrite <- app_assoc.
Qed.

Lemma elem_of_missing (t : Tree) (names : list string) (c : string) :
  c ∈ missing_readmes t (crates t names)
  <-> c ∈ names /\ isdir t (PyPath.join crates_dir c) = true
      /\ c <> "vendor" /\ exists_path t (readme_path c) = false.
Proof.
  rewrite missing_readmes_filter. unfold crates.
  rewrite !list_elem_of_In, !filter_In, andb_true_iff, !negb_true_iff.
  rewrite String.eqb_neq. tauto.
Qed.

(** X17. The script prints the single line ["All crates have README.md"]
    exactly when [crates] can be listed and every entry of it that is a
    directory, other than ["vendor"], holds a [README.md]. *)
Theorem all_clear_iff (t : Tree) :
  script t = Some ["All crates have README.md"]
  <-> exists names,
        listdir t "crates" = Some names
        /\ forall d, d ∈ names ->
             isdir t (PyPath.join "crates" d) = true ->
             d <> "vendor" ->
             exists_path t (PyPath.join (PyPath.join "crates" d) "README.md")
             = true.
Proof.
  unfold script. fold crates_dir.
  destruct (listdir t crates_dir) as [names|];
    [|split; [discriminate|intros (? & ? & _); discriminate]].
  split.
  - intros E. exists names. split; [reflexivity|]. intros d Hd Hdir Hv.
    destruct (exists_path t (PyPath.join (PyPath.join crates_dir d) "README.md"))
      eqn:Hex; [reflexivity|].
    assert (d ∈ missing_readmes t (crates t names)) as Hin
      by (apply elem_of_missing; repeat split; assumption).
    destruct (missing_readmes t (crates t names));
      [now apply elem_of_nil in Hin|discriminate E].
  - intros (names' & [= <-] & H). f_equal.
    destruct (missing_readmes t (crates t names)) as [|c cs] eqn:E;
      [reflexivity|].
    assert (c ∈ missing_readmes t (crates t names)) as Hin
      by (rewrite E; left).
    apply elem_of_missing in Hin as (Hn & Hdir & Hv & Hex).
    unfold readme_path in Hex. rewrite (H c Hn Hdir Hv) in Hex. discriminate.
Qed.

(** X18. When a README is missing, the script prints the header line and
    then one line ["- <name>"] for each entry of [crates] that is a
    directory, is not ["vendor"] and holds no [README.md], in the order of
    the listing; it prints nothing else. *)
Theorem report_lists_missing (t : Tree) (names out : list string) :
  listdir t "crates" = Some names ->
  script t = Some out ->
  out <> ["All crates have README.md"] ->
  out = "Missing READMEs in crates:"
        :: map (fun crate => String.append "- " crate)
             (List.filter
                (fun d =>
                   isdir t (PyPath.join "crates" d)
                   && negb (String.eqb d "vendor")
                   && negb (exists_path t
                              (PyPath.join (PyPath.join "crates" d) "README.md")))
                names).
Proof.
  unfold script. fold crates_dir. intros -> [= <-] Hne.
  rewrite missing_readmes_filter in *. unfold crates in *.
  assert (forall (f g : string -> bool) (l : list string),
            List.filter g (List.filter f l)
            = List.filter (fun x => f x && g x) l) as Hff.
  { intros f g l. induction l as [|x l IH]; [reflexivity|]. simpl.
    destruct (f x); simpl; [destruct (g x)|]; now rewrite IH. }
  rewrite Hff in *. unfold readme_path in *.
  destruct (List.filter _ names) as [|c cs]; [now elim Hne|reflexivity].
Qed.

Lemma report_lists_missing_witness :
  ["Missing READMEs in crates:"; "- core"]
  = "Missing READMEs in crates:"
    :: map (fun crate => String.append "- " crate)
         (List.filter
            (fun d =>
               true && negb (String.eqb d "vendor")
               && negb (String.eqb "crates/ui/README.md"
                          (PyPath.join (PyPath.join "crates" d) "README.md")))
            ["core"; "vendor"; "ui"]).
Proof.
  apply (report_lists_missing
           {| listdir := fun _ => Some ["core"; "vendor"; "ui"];
              isdir := fun _ => true;
              exists_path := String.eqb "crates/ui/README.md" |}
           ["core"; "vendor"; "ui"]).
  - reflexivity.
  - reflexivity.
  - discriminate.
Defined.

Lemma all_clear_iff_witness :
  script {| listdir := fun _ => Some ["core"; "vendor"; "notes.txt"];
            isdir := fun p => negb (String.eqb p "crates/notes.txt");
            exists_path := String.eqb "crates/core/README.md" |}
  = Some ["All crates have README.md"].
Proof.
  apply (proj2 (all_clear_iff
                  {| listdir := fun _ => Some ["core"; "vendor"; "notes.txt"];
                     isdir := fun p => negb (String.eqb p "crates/notes.txt");
                     exists_path := String.eqb "crates/core/README.md" |})).
  exists ["core"; "vendor"; "notes.txt"]. split; [reflexivity|].
  intros d Hd Hdir Hv.
  apply elem_of_cons in Hd as [->|Hd]; [reflexivity|].
  apply elem_of_cons in Hd as [->|Hd]; [now elim Hv|].
  apply elem_of_cons in Hd as [->|Hd]; [discriminate Hdir|].
  now apply elem_of_nil in Hd.
Defined.

End CheckReadmesFacts.

(** * Properties of [check_links.py] *)

Module CheckLinksFacts.

Import CheckLinks.

Lemma group_until_rparen_spec (s link after : string) :
  group_until_rparen s = Some (link, after) ->
  s = String.append link (String ")" after)
  /\ (")"%char ∉ list_ascii_of_string link)
  /\ (newline ∉ list_ascii_of_string link).
Proof.
  revert link. induction s as [|c s IH]; intros link; simpl; [discriminate|].
  destruct (Ascii.eqb c ")") eqn:E1.
  - intros [= <- <-]. apply Ascii.eqb_eq in E1. subst.
    repeat split; apply not_elem_of_nil.
  - destruct (Ascii.eqb c newline) eqn:E2; [discriminate|].
    destruct (group_until_rparen s) as [[l a]|]; [|discriminate].
    intros [= <- <-]. destruct (IH l eq_refl) as (-> & H1 & H2).
    apply Ascii.eqb_neq in E1, E2.
    repeat split; simpl; apply not_elem_of_cons; split; congruence.
Qed.

Lemma str_length_append (a b : string) :
  String.length (String.append a b) = String.length a + String.length b.
Proof.
  induction a as [|c a IH]; [reflexivity|].
  rewrite FixFormattingFacts.str_append_cons. simpl. now rewrite IH.
Qed.

Lemma group_until_rparen_shorter (s link after : string) :
  group_until_rparen s = Some (link, after) ->
  String.length after < String.length s.
Proof.
  intros H. apply group_until_rparen_spec in H as (-> & _).
  rewrite str_length_append. simpl. lia.
Qed.

Lemma after_bracket_spec (s link after : string) :
  after_bracket s = Some (link, after) ->
  String.length after < String.length s
  /\ (")"%char ∉ list_ascii_of_string link)
  /\ (newline ∉ list_ascii_of_string link).
Proof.
  induction s as [|c s IH]; [discriminate|].
  assert ((if Ascii.eqb c newline then None else after_bracket s)
          = Some (link, after) ->
          String.length after < String.length (String c s)
          /\ (")"%char ∉ list_ascii_of_string link)
          /\ (newline ∉ list_ascii_of_string link)) as Hext.
  { destruct (Ascii.eqb c newline); [discriminate|].
    intros H. destruct (IH H) as (? & ? & ?). simpl. repeat split; [lia|easy..]. }
  simpl. destruct (Ascii.eqb c "]"); [|exact Hext].
  destruct s as [|c' s']; [exact Hext|].
  destruct (Ascii.eqb c' "("); [|exact Hext].
  destruct (group_until_rparen s') as [[l a]|] eqn:G; [|exact Hext].
  intros [= -> ->].
  pose proof (group_until_rparen_shorter _ _ _ G).
  apply group_until_rparen_spec in G as (_ & ? & ?).
  simpl. repeat split; [lia|easy..].
Qed.

(** The steps counted by [String.length] are enough: more of them change
    nothing. *)
Lemma findall_from_enough (n m : nat) (s : string) :
  String.length s <= n -> String.length s <= m ->
  findall_from n s = findall_from m s.
Proof.
  revert m s. induction n as [|n IH]; intros m s Hn Hm.
  - destruct s; [|simpl in Hn; lia]. now destruct m.
  - destruct m as [|m]; [destruct s; [reflexivity|simpl in Hm; lia]|].
    destruct s as [|c s]; [reflexivity|]. simpl in *.
    destruct (Ascii.eqb c "["); [|apply IH; lia].
    destruct (after_bracket s) as [[link after]|] eqn:E; [|apply IH; lia].
    apply after_bracket_spec in E as (Hlt & _).
    f_equal. apply IH; lia.
Qed.

Lemma findall_cons (c : ascii) (s : string) :
  findall (String c s)
  = if Ascii.eqb c "[" then
      match after_bracket s with
      | Some (link, after) => link :: findall after
      | None => findall s
      end
    else findall s.
Proof.
  unfold findall. simpl.
  destruct (Ascii.eqb c "["); [|reflexivity].
  destruct (after_bracket s) as [[link after]|] eqn:E; [|reflexivity].
  apply after_bracket_spec in E as (Hlt & _).
  f_equal. apply findall_from_enough; lia.
Qed.

Lemma findall_skip (pre s : string) :
  "["%char ∉ list_ascii_of_string pre ->
  findall (String.append pre s) = findall s.
Proof.
  induction pre as [|c pre IH]; [reflexivity|]. simpl. intros H.
  apply not_elem_of_cons in H as [Hc H].
  rewrite ?FixFormattingFacts.str_append_cons, findall_cons.
  destruct (Ascii.eqb c "[") eqn:E; [|now apply IH].
  apply Ascii.eqb_eq in E. congruence.
Qed.

Lemma group_until_rparen_found (target post : string) :
  ")"%char ∉ list_ascii_of_string target ->
  newline ∉ list_ascii_of_string target ->
  group_until_rparen (String.append target (String ")" post))
  = Some (target, post).
Proof.
  induction target as [|c t IH]; [reflexivity|]. simpl. intros H1 H2.
  apply not_elem_of_cons in H1 as [Hc1 H1].
  apply not_elem_of_cons in H2 as [Hc2 H2].
  rewrite ?FixFormattingFacts.str_append_cons. simpl.
  destruct (Ascii.eqb c ")") eqn:E1; [apply Ascii.eqb_eq in E1; congruence|].
  destruct (Ascii.eqb c newline) eqn:E2; [apply Ascii.eqb_eq in E2; congruence|].
  now rewrite IH.
Qed.

Lemma after_bracket_found (text target post : string) :
  "]"%char ∉ list_ascii_of_string text ->
  newline ∉ list_ascii_of_string text ->
  ")"%char ∉ list_ascii_of_string target ->
  newline ∉ list_ascii_of_string target ->
  after_bracket
    (String.append text
       (String "]" (String "(" (String.append target (String ")" post)))))
  = Some (target, post).
Proof.
  intros H1 H2 H3 H4. induction text as [|c t IH].
  - change (String.append EmptyString ?x) with x. simpl.
    now rewrite group_until_rparen_found.
  - simpl in H1, H2.
    apply not_elem_of_cons in H1 as [Hc1 H1].
    apply not_elem_of_cons in H2 as [Hc2 H2].
    rewrite ?FixFormattingFacts.str_append_cons. simpl.
    destruct (Ascii.eqb c newline) eqn:E2;
      [apply Ascii.eqb_eq in E2; congruence|].
    destruct (Ascii.eqb c "]") eqn:E1;
      [apply Ascii.eqb_eq in E1; congruence|].
    now apply IH.
Qed.

(** X19. The pattern never yields a link that holds a closing parenthesis
    or a newline: a target is cut at its first [")"], and a link written
    across two lines is not found. *)
Theorem findall_links_shape (s link : string) :
  link ∈ findall s ->
  (")"%char ∉ list_ascii_of_string link)
  /\ (newline ∉ list_ascii_of_string link).
Proof.
  unfold findall. generalize (String.length s) as n. intros n. revert s.
  induction n as [|n IH]; intros s H; [now apply elem_of_nil in H|].
  destruct s as [|c s]; [now apply elem_of_nil in H|]. simpl in H.
  destruct (Ascii.eqb c "["); [|now apply (IH s)].
  destruct (after_bracket s) as [[l after]|] eqn:E; [|now apply (IH s)].
  apply elem_of_cons in H as [->|H]; [|now apply (IH after)].
  now apply after_bracket_spec in E as (_ & ? & ?).
Qed.

Lemma findall_links_shape_witness :
  (")"%char ∉ list_ascii_of_string "f(x")
  /\ (newline ∉ list_ascii_of_string "f(x").
Proof.
  apply (findall_links_shape "see [call](f(x).md) here" "f(x").
  vm_compute. left.
Defined.

(** X20. A well-formed link is found and the scan goes on behind it: when
    no ["["] comes before it, its text holds no ["]"] and no newline and its
    target holds no [")"] and no newline, the first link [findall] returns
    is that target, followed by the links of the rest of the text. *)
Theorem findall_first_link (pre text target post : string) :
  "["%char ∉ list_ascii_of_string pre ->
  "]"%char ∉ list_ascii_of_string text ->
  newline ∉ list_ascii_of_string text ->
  ")"%char ∉ list_ascii_of_string target ->
  newline ∉ list_ascii_of_string target ->
  findall
    (String.append pre
       (String "["
          (String.append text
             (String "]" (String "(" (String.append target (String ")" post)))))))
  = target :: findall post.
Proof.
  intros Hpre H1 H2 H3 H4.
  rewrite (findall_skip _ _ Hpre), findall_cons. simpl.
  now rewrite after_bracket_found.
Qed.

Lemma findall_first_link_witness :
  findall
    (String.append "See "
       (String "["
          (String.append "the guide"
             (String "]" (String "(" (String.append "docs/guide.md"
                                        (String ")" " and [x](#y).")))))))
  = "docs/guide.md" :: findall " and [x](#y).".
Proof.
  apply (findall_first_link "See " "the guide" "docs/guide.md" " and [x](#y).");
    vm_compute; intros H;
    repeat (apply elem_of_cons in H as [H|H]; [discriminate H|]);
    now apply elem_of_nil in H.
Defined.

Lemma fold_check_link (fs : Files) (base_dir : string) (links out : list string) :
  fold_left (fun out link => out ++ check_link fs base_dir link) links out
  = out
    ++ map (fun link =>
              if exists_path fs (PyPath.join base_dir link)
              then String.append "  OK: " link
              else String.append "  BROKEN: "
                     (String.append link
                        (String.append " -> " (PyPath.join base_dir link))))
        (List.filter
           (fun link =>
              negb (String.prefix "http" link) && negb (String.prefix "#" link))
           links).
Proof.
  revert out. induction links as [|l links IH]; intros out; simpl;
    [now rewrite app_nil_r|].
  rewrite IH. unfold check_link.
  destruct (String.prefix "http" l); simpl; [now rewrite app_nil_r|].
  destruct (String.prefix "#" l); simpl; [now rewrite app_nil_r|].
  rewrite <- app_assoc.
  now destruct (exists_path fs (PyPath.join base_dir l)).
Qed.

(** X21. The report of [check_file]. The first line names the file. When
    the file cannot be opened nothing else is printed and the call raises.
    Otherwise one line follows for each link of the file that begins
    neither with ["http"] nor with ["#"], in the order of the text: [OK]
    when the link, taken relative to the directory of the file, exists,
    [BROKEN] with the path tried when it does not. Links that begin with
    ["http"] or ["#"] are never looked up. *)
Theorem check_file_report (fs : Files) (filepath : string) :
  (read fs filepath = None ->
   check_file fs filepath
   = ([String.append "Checking " (String.append filepath "...")], false))
  /\ (forall content,
        read fs filepath = Some content ->
        check_file fs filepath
        = (String.append "Checking " (String.append filepath "...")
           :: map (fun link =>
                     if exists_path fs (PyPath.join (dirname filepath) link)
                     then String.append "  OK: " link
                     else String.append "  BROKEN: "
                            (String.append link
                               (String.append " -> "
                                  (PyPath.join (dirname filepath) link))))
                (List.filter
                   (fun link =>
                      negb (String.prefix "http" link)
                      && negb (String.prefix "#" link))
                   (findall content)),
           true)).
Proof.
  unfold check_file. split.
  - now intros ->.
  - intros content ->. now rewrite fold_check_link.
Qed.

Lemma check_file_report_witness :
  check_file
    {| read := fun _ => Some "[a](http://x) [b](#top) [c](d.md) [e](f.md)";
       exists_path := String.eqb "docs/d.md" |} "docs/README.md"
  = (["Checking docs/README.md..."; "  OK: d.md";
      "  BROKEN: f.md -> docs/f.md"], true).
Proof.
  apply (proj2 (check_file_report
                  {| read := fun _ =>
                       Some "[a](http://x) [b](#top) [c](d.md) [e](f.md)";
                     exists_path := String.eqb "docs/d.md" |} "docs/README.md")
           "[a](http://x) [b](#top) [c](d.md) [e](f.md)").
  reflexivity.
Defined.

End CheckLinksFacts.
